(** * AutoExport plugin (auto_export/qt.py): a shallow embedding

    The plugin exports the transaction history of an Electrum wallet as CSV,
    to a local directory and/or to an FTP server, from a repeating timer
    thread.  This development embeds the Python code of [Plugin] as
    functions over explicit Python values, an explicit plugin object and an
    explicit outside world (timer threads, file system, FTP traffic, log),
    with exceptions threaded through a small state-and-error monad. *)

From stdpp Require Import gmap strings list fin_maps pretty.
From Stdlib Require Import ZArith NArith Ascii Lia.

Local Open Scope Z_scope.

(** ** Python values *)

(** A Python [str] is a sequence of Unicode code points. *)
Definition str := list N.

(** A Python [bytes] object: a sequence of octets. *)
Definition bytes := list N.

(** String literals of the source, as code points. *)
Definition lit (s : string) : str := N_of_ascii <$> String.list_ascii_of_string s.

(** The dynamically typed values that flow through the plugin: configuration
    values and the cells of an export table. *)
Inductive pyval :=
  | PNone
  | PBool (b : bool)
  | PInt (n : Z)
  | PStr (s : str).

#[global] Instance pyval_eq_dec : EqDecision pyval.
Proof. solve_decision. Defined.

(** Truth-value testing: [None], [False], [0] and [''] are false. *)
Definition truthy (v : pyval) : bool :=
  match v with
  | PNone => false
  | PBool b => b
  | PInt n => negb (n =? 0)
  | PStr s => match s with [] => false | _ => true end
  end.

(** [a or b] yields the first operand when it is true, else the second. *)
Definition py_or (a b : pyval) : pyval := if truthy a then a else b.

(** [str(v)]. *)
Definition py_str (v : pyval) : str :=
  match v with
  | PNone => lit "None"
  | PBool true => lit "True"
  | PBool false => lit "False"
  | PInt n => lit (pretty n)
  | PStr s => s
  end.

(** A cell that holds a string or an integer. *)
Definition resolved (v : pyval) : Prop :=
  (∃ t, v = PStr t) ∨ (∃ n, v = PInt n).

(** Exceptions; every one of them derives from [Exception]. *)
Inductive exn :=
  | AttributeError (msg : str)
  | TypeError (msg : str)
  | ValueError (msg : str)
  | OSError (msg : str)
  | UnicodeEncodeError (msg : str)
  | UnicodeDecodeError (msg : str)
  | CsvError (msg : str)
  | FtpError (msg : str).

(** [str(e)]. *)
Definition exn_str (e : exn) : str :=
  match e with
  | AttributeError m | TypeError m | ValueError m | OSError m
  | UnicodeEncodeError m | UnicodeDecodeError m | CsvError m | FtpError m => m
  end.

(** ** The wallet (external data source) *)

(** One entry of [wallet.get_history()]:
    [(tx_hash, height, confirmations, timestamp, value, balance)]. *)
Record HistoryItem := {
  tx_hash : str;
  height : Z;
  confirmations : Z;
  timestamp : option Z;
  value : option Z;
  balance : option Z;
}.

Record Wallet := {
  get_history : list HistoryItem;
  get_label : str → str;
}.

(** ** The outside world *)

(** Text-mode file conventions of the platform: [open(path, "w+")] passes
    neither [encoding] nor [newline], so both come from the platform. *)
Inductive codec := UTF8 | ASCII | Latin1.
Inductive newline := LF | CRLF.

Record Platform := {
  linesep : newline;
  encoding : codec;
}.

(** A thread started by [call_repeatedly], with the [threading.Event] it
    waits on. *)
Record Timer := {
  t_interval : pyval;
  t_stopped : bool;
}.

(** What the FTP client sends. *)
Inductive ftp_cmd :=
  | FtpConnect (host : pyval) (port : Z)
  | FtpLogin (user password : pyval)
  | FtpCwd (dir : pyval)
  | FtpStor (cmd : str) (data : bytes)
  | FtpClose.

Record World := {
  platform : Platform;
  clock : Z;
  timers : list Timer;
  files : gmap str bytes;
  unwritable : gset str;
  ftp_refuses : ftp_cmd → option exn;
  ftp_sent : list ftp_cmd;
  history_reads : nat;
  errors : list str;
}.

(** ** The plugin object *)

Inductive Icon := status_connected | status_disconnected.

Record StatusBarButton := {
  icon : Icon;
  tooltip : str;
}.

Record Plugin := {
  config : gmap string pyval;
  wallet : option Wallet;
  window : option nat;
  timer : option nat;
  status_button : option StatusBarButton;
  autoexport_interval_seconds : pyval;
  autoexport_need_export_to_local : pyval;
  autoexport_need_export_to_ftp : pyval;
  autoexport_local_path : pyval;
  autoexport_ftp_host : pyval;
  autoexport_ftp_port : pyval;
  autoexport_ftp_user : pyval;
  autoexport_ftp_password : pyval;
  autoexport_ftp_dir : pyval;
}.

Record State := {
  self : Plugin;
  world : World;
}.

(** ** A state-and-exception monad

    A computation runs on the state, and either returns or raises; the state
    changes made before a [raise] persist. *)
Definition M (A : Type) : Type := State → (exn + A) * State.

Definition ret {A} (a : A) : M A := λ s, (inr a, s).
Definition raise {A} (e : exn) : M A := λ s, (inl e, s).
Definition bind {A B} (m : M A) (k : A → M B) : M B :=
  λ s, match m s with
       | (inr a, s') => k a s'
       | (inl e, s') => (inl e, s')
       end.

(** [try: body  except Exception as e: handler(e)]. *)
Definition try_except (body : M unit) (handler : exn → M unit) : M unit :=
  λ s, match body s with
       | (inr a, s') => (inr a, s')
       | (inl e, s') => handler e s'
       end.

Definition get : M State := λ s, (inr s, s).
Definition modify (f : State → State) : M unit := λ s, (inr tt, f s).

Declare Scope py_scope.
Delimit Scope py_scope with py.
Notation "x <- m ;; k" := (bind m (λ x, k))
  (at level 100, m at next level, right associativity) : py_scope.
Notation "m ;; k" := (bind m (λ _, k))
  (at level 100, k at level 200, right associativity) : py_scope.
Local Open Scope py_scope.

(** [for x in xs: body(x)]. *)
Fixpoint for_each {A} (xs : list A) (body : A → M unit) : M unit :=
  match xs with
  | [] => ret tt
  | x :: xs' => body x ;; for_each xs' body
  end.

(** ** External collaborators

    Functions of Electrum and of the Python library that the plugin calls
    and that are not part of its code. *)
Class Host := {
  (** [electrum.i18n._] *)
  tr : str → str;
  (** [electrum.util.format_time] *)
  format_time : Z → str;
  (** [electrum.util.format_satoshis(value, is_diff)] *)
  format_satoshis : Z → bool → str;
  (** [time.strftime(format)] at a given clock reading *)
  strftime : str → Z → str;
  (** [os.path.join] on two strings *)
  os_path_join : str → str → str;
  (** [int(s)] on a string: [None] stands for [ValueError] *)
  int_of_str : str → option Z;
  (** [repr(s)] of a string *)
  py_repr : str → str;
}.

(** ** Attribute assignment on the plugin object and on the world *)

Definition set_self (f : Plugin → Plugin) : M unit :=
  modify (λ s, {| self := f (self s); world := world s |}).

Definition set_world (f : World → World) : M unit :=
  modify (λ s, {| self := self s; world := f (world s) |}).

Definition with_wallet (v : option Wallet) (p : Plugin) : Plugin :=
  {| config := config p; wallet := v; window := window p; timer := timer p;
     status_button := status_button p;
     autoexport_interval_seconds := autoexport_interval_seconds p;
     autoexport_need_export_to_local := autoexport_need_export_to_local p;
     autoexport_need_export_to_ftp := autoexport_need_export_to_ftp p;
     autoexport_local_path := autoexport_local_path p;
     autoexport_ftp_host := autoexport_ftp_host p;
     autoexport_ftp_port := autoexport_ftp_port p;
     autoexport_ftp_user := autoexport_ftp_user p;
     autoexport_ftp_password := autoexport_ftp_password p;
     autoexport_ftp_dir := autoexport_ftp_dir p |}.

Definition with_window (v : option nat) (p : Plugin) : Plugin :=
  {| config := config p; wallet := wallet p; window := v; timer := timer p;
     status_button := status_button p;
     autoexport_interval_seconds := autoexport_interval_seconds p;
     autoexport_need_export_to_local := autoexport_need_export_to_local p;
     autoexport_need_export_to_ftp := autoexport_need_export_to_ftp p;
     autoexport_local_path := autoexport_local_path p;
     autoexport_ftp_host := autoexport_ftp_host p;
     autoexport_ftp_port := autoexport_ftp_port p;
     autoexport_ftp_user := autoexport_ftp_user p;
     autoexport_ftp_password := autoexport_ftp_password p;
     autoexport_ftp_dir := autoexport_ftp_dir p |}.

Definition with_timer (v : option nat) (p : Plugin) : Plugin :=
  {| config := config p; wallet := wallet p; window := window p; timer := v;
     status_button := status_button p;
     autoexport_interval_seconds := autoexport_interval_seconds p;
     autoexport_need_export_to_local := autoexport_need_export_to_local p;
     autoexport_need_export_to_ftp := autoexport_need_export_to_ftp p;
     autoexport_local_path := autoexport_local_path p;
     autoexport_ftp_host := autoexport_ftp_host p;
     autoexport_ftp_port := autoexport_ftp_port p;
     autoexport_ftp_user := autoexport_ftp_user p;
     autoexport_ftp_password := autoexport_ftp_password p;
     autoexport_ftp_dir := autoexport_ftp_dir p |}.

Definition with_status_button (v : option StatusBarButton) (p : Plugin) : Plugin :=
  {| config := config p; wallet := wallet p; window := window p;
     timer := timer p; status_button := v;
     autoexport_interval_seconds := autoexport_interval_seconds p;
     autoexport_need_export_to_local := autoexport_need_export_to_local p;
     autoexport_need_export_to_ftp := autoexport_need_export_to_ftp p;
     autoexport_local_path := autoexport_local_path p;
     autoexport_ftp_host := autoexport_ftp_host p;
     autoexport_ftp_port := autoexport_ftp_port p;
     autoexport_ftp_user := autoexport_ftp_user p;
     autoexport_ftp_password := autoexport_ftp_password p;
     autoexport_ftp_dir := autoexport_ftp_dir p |}.

Definition with_config (v : gmap string pyval) (p : Plugin) : Plugin :=
  {| config := v; wallet := wallet p; window := window p;
     timer := timer p; status_button := status_button p;
     autoexport_interval_seconds := autoexport_interval_seconds p;
     autoexport_need_export_to_local := autoexport_need_export_to_local p;
     autoexport_need_export_to_ftp := autoexport_need_export_to_ftp p;
     autoexport_local_path := autoexport_local_path p;
     autoexport_ftp_host := autoexport_ftp_host p;
     autoexport_ftp_port := autoexport_ftp_port p;
     autoexport_ftp_user := autoexport_ftp_user p;
     autoexport_ftp_password := autoexport_ftp_password p;
     autoexport_ftp_dir := autoexport_ftp_dir p |}.

Definition with_timers (v : list Timer) (w : World) : World :=
  {| platform := platform w; clock := clock w; timers := v; files := files w;
     unwritable := unwritable w; ftp_refuses := ftp_refuses w;
     ftp_sent := ftp_sent w; history_reads := history_reads w;
     errors := errors w |}.

Definition with_files (v : gmap str bytes) (w : World) : World :=
  {| platform := platform w; clock := clock w; timers := timers w; files := v;
     unwritable := unwritable w; ftp_refuses := ftp_refuses w;
     ftp_sent := ftp_sent w; history_reads := history_reads w;
     errors := errors w |}.

Definition with_ftp_sent (v : list ftp_cmd) (w : World) : World :=
  {| platform := platform w; clock := clock w; timers := timers w;
     files := files w; unwritable := unwritable w;
     ftp_refuses := ftp_refuses w; ftp_sent := v;
     history_reads := history_reads w; errors := errors w |}.

Definition with_history_reads (v : nat) (w : World) : World :=
  {| platform := platform w; clock := clock w; timers := timers w;
     files := files w; unwritable := unwritable w;
     ftp_refuses := ftp_refuses w; ftp_sent := ftp_sent w;
     history_reads := v; errors := errors w |}.

Definition with_errors (v : list str) (w : World) : World :=
  {| platform := platform w; clock := clock w; timers := timers w;
     files := files w; unwritable := unwritable w;
     ftp_refuses := ftp_refuses w; ftp_sent := ftp_sent w;
     history_reads := history_reads w; errors := v |}.

(** [electrum.util.print_error]: appends to the log. *)
Definition print_error (msg : str) : M unit :=
  set_world (λ w, with_errors (errors w ++ [msg]) w).

(** ** The repeating timer *)

(** The loop of the thread that [call_repeatedly] starts,

      [while not stopped.wait(interval): func( *args )]

    run against the successive results of [stopped.wait(interval)] ([true]
    once the event is set).  The callback acts on a state of its own and
    returns or raises.  The loop has no handler: an exception leaves it. *)
Inductive loop_status :=
  | Waiting          (* blocked in [stopped.wait], ready to go on *)
  | Returned         (* [stopped.wait] answered [True]: the loop ended *)
  | Died (e : exn).  (* an exception left the loop, the thread is gone *)

Fixpoint loop {St} (func : St → (exn + unit) * St) (waits : list bool)
    (s : St) (calls : nat) : loop_status * St * nat :=
  match waits with
  | [] => (Waiting, s, calls)
  | true :: _ => (Returned, s, calls)
  | false :: waits' =>
      match func s with
      | (inr _, s') => loop func waits' s' (S calls)
      | (inl e, s') => (Died e, s', S calls)
      end
  end.

(** [call_repeatedly(interval, func)]: a fresh [threading.Event], a fresh
    thread on it; the result is the event's [set] method, represented by the
    index of the timer. *)
Definition call_repeatedly (interval : pyval) : M nat :=
  s <- get ;;
  let h := length (timers (world s)) in
  set_world (λ w, with_timers
    (timers w ++ [{| t_interval := interval; t_stopped := false |}]) w) ;;
  ret h.

(** Calling the handle: [stopped.set()]. *)
Definition stop (t : Timer) : Timer :=
  {| t_interval := t_interval t; t_stopped := true |}.

Definition stopped_set (h : nat) : M unit :=
  set_world (λ w, with_timers (alter stop h (timers w)) w).

(** The timers whose thread is still looping. *)
Definition live_timers (w : World) : list Timer :=
  filter (λ t, t_stopped t = false) (timers w).

(** ** Text encodings *)

Local Open Scope N_scope.

(** UTF-8 of one code point; surrogates and values past U+10FFFF have none. *)
Definition utf8_encode_char (c : N) : option bytes :=
  if c <? 0x80 then Some [c]
  else if c <? 0x800 then Some [0xC0 + c / 0x40; 0x80 + c mod 0x40]
  else if c <? 0x10000 then
    if (0xD800 <=? c) && (c <=? 0xDFFF) then None
    else Some [0xE0 + c / 0x1000; 0x80 + (c / 0x40) mod 0x40; 0x80 + c mod 0x40]
  else if c <? 0x110000 then
    Some [0xF0 + c / 0x40000; 0x80 + (c / 0x1000) mod 0x40;
          0x80 + (c / 0x40) mod 0x40; 0x80 + c mod 0x40]
  else None.

Definition encode_char (enc : codec) (c : N) : option bytes :=
  match enc with
  | UTF8 => utf8_encode_char c
  | ASCII => if c <? 0x80 then Some [c] else None
  | Latin1 => if c <? 0x100 then Some [c] else None
  end.

(** [s.encode(enc)], with [errors='strict']: [None] stands for
    [UnicodeEncodeError]. *)
Fixpoint encode (enc : codec) (s : str) : option bytes :=
  match s with
  | [] => Some []
  | c :: s' =>
      match encode_char enc c, encode enc s' with
      | Some b, Some bs => Some (b ++ bs)
      | _, _ => None
      end
  end.

(** Newline translation of a text file on output ([newline=None]): every
    ['\n'] becomes [os.linesep]. *)
Definition translate_newlines (nl : newline) (s : str) : str :=
  match nl with
  | LF => s
  | CRLF => s ≫= (λ c, if c =? 10 then [13; 10] else [c])
  end.

(** ** The [csv] writer

    [csv.writer(f, lineterminator='\n')]: the [excel] dialect (delimiter
    a comma, quote character a double quote, doubled quotes, minimal
    quoting, no escape character) with its line terminator replaced. *)
Definition delimiter : N := 44.
Definition quotechar : N := 34.
Definition lineterminator : str := [10].

(** The data of one field: a quote is doubled; a delimiter, a quote or a
    character of the line terminator make the field quoted.  No escape
    character is set, and with doubled quotes and minimal quoting none is
    asked for: every other character, NUL included, is copied as it is, and
    the error of the writer (need to escape, but no escapechar set) cannot
    arise. *)
Fixpoint join_append_data (field : str) : exn + (str * bool) :=
  match field with
  | [] => inr ([], false)
  | c :: rest =>
      match join_append_data rest with
      | inl e => inl e
      | inr (out, quoted) =>
          if c =? quotechar then inr (quotechar :: c :: out, true)
          else if (c =? delimiter) || bool_decide (c ∈ lineterminator)
          then inr (c :: out, true)
          else inr (c :: out, quoted)
      end
  end.

(** [join_append]: adds one field to the record being built; [num_fields]
    tells whether a delimiter comes first. [force] asks for quotes. *)
Definition join_append (rec : str) (num_fields : nat) (field : str)
    (force : bool) : exn + str :=
  match join_append_data field with
  | inl e => inl e
  | inr (out, quoted) =>
      let sep := match num_fields with O => [] | _ => [delimiter] end in
      inr (rec ++ sep ++
           (if quoted || force then [quotechar] ++ out ++ [quotechar] else out))
  end.

(** The text of a cell: a string as it is, [None] as nothing, anything else
    through [str()]. *)
Definition field_text (v : pyval) : str :=
  match v with
  | PStr s => s
  | PNone => []
  | _ => py_str v
  end.

Fixpoint join_fields (rec : str) (num_fields : nat) (row : list pyval)
  : exn + (str * nat) :=
  match row with
  | [] => inr (rec, num_fields)
  | v :: row' =>
      match join_append rec num_fields (field_text v) false with
      | inl e => inl e
      | inr rec' => join_fields rec' (S num_fields) row'
      end
  end.

(** [writerow(row)]: the text handed to the [write] method of the file.  A
    record made of one empty field is written as a pair of quotes. *)
Definition writerow (row : list pyval) : exn + str :=
  match join_fields [] 0 row with
  | inl e => inl e
  | inr (rec, num_fields) =>
      match num_fields, rec with
      | S n, [] =>
          match join_append [] n [] true with
          | inl e => inl e
          | inr rec' => inr (rec' ++ lineterminator)
          end
      | _, _ => inr (rec ++ lineterminator)
      end
  end.

(** The text of a table: its rows as [writerow] gives them, one after the
    other. *)
Fixpoint csv_text (lines : list (list pyval)) : exn + str :=
  match lines with
  | [] => inr []
  | line :: lines' =>
      match writerow line with
      | inl e => inl e
      | inr text =>
          match csv_text lines' with
          | inl e => inl e
          | inr texts => inr (text ++ texts)
          end
      end
  end.

Local Close Scope N_scope.

(** ** Files *)

Definition lift {A} (r : exn + A) : M A :=
  match r with inl e => raise e | inr a => ret a end.

(** [open(path, "w+")]: creates the file or truncates it. *)
Definition open_w (path : str) : M unit :=
  s <- get ;;
  if decide (path ∈ unwritable (world s)) then
    raise (OSError (lit "[Errno 13] Permission denied"))
  else set_world (λ w, with_files (<[path := []]> (files w)) w).

(** [f.write(text)] on a text file: newline translation, then encoding. *)
Definition file_write (path : str) (text : str) : M unit :=
  s <- get ;;
  let pf := platform (world s) in
  match encode (encoding pf) (translate_newlines (linesep pf) text) with
  | None => raise (UnicodeEncodeError (lit "codec can't encode character"))
  | Some bs =>
      set_world (λ w, with_files
        (<[path := default [] (files w !! path) ++ bs]> (files w)) w)
  end.

(** ** FTP *)

Definition ftp_do (c : ftp_cmd) : M unit :=
  set_world (λ w, with_ftp_sent (ftp_sent w ++ [c]) w) ;;
  s <- get ;;
  match ftp_refuses (world s) c with
  | Some e => raise e
  | None => ret tt
  end.

(** ** The plugin's methods *)

Definition with_settings (interval to_local to_ftp local_path ftp_host
    ftp_port ftp_user ftp_password ftp_dir : pyval) (p : Plugin) : Plugin :=
  {| config := config p; wallet := wallet p; window := window p;
     timer := timer p; status_button := status_button p;
     autoexport_interval_seconds := interval;
     autoexport_need_export_to_local := to_local;
     autoexport_need_export_to_ftp := to_ftp;
     autoexport_local_path := local_path;
     autoexport_ftp_host := ftp_host;
     autoexport_ftp_port := ftp_port;
     autoexport_ftp_user := ftp_user;
     autoexport_ftp_password := ftp_password;
     autoexport_ftp_dir := ftp_dir |}.

(** [self.config.get(key, default)]. *)
Definition config_get (c : gmap string pyval) (key : string) (dflt : pyval)
  : pyval := default dflt (c !! key).

(** [self.status_button.setToolTip] and [.setIcon]; the attribute exists
    only once [create_status_bar] has run. *)
Definition no_status_button : exn :=
  AttributeError (lit "'Plugin' object has no attribute 'status_button'").

Definition setToolTip (text : str) : M unit :=
  s <- get ;;
  match status_button (self s) with
  | None => raise no_status_button
  | Some b =>
      set_self (with_status_button (Some {| icon := icon b; tooltip := text |}))
  end.

Definition setIcon (i : Icon) : M unit :=
  s <- get ;;
  match status_button (self s) with
  | None => raise no_status_button
  | Some b =>
      set_self (with_status_button (Some {| icon := i; tooltip := tooltip b |}))
  end.

(** The values entered in the settings dialog. *)
Record SettingsForm := {
  export_interval_seconds : str;
  export_need_export_to_ftp : bool;
  export_need_export_to_local : bool;
  export_local_path : str;
  export_ftp_host : str;
  export_ftp_port : str;
  export_ftp_user : str;
  export_ftp_password : str;
  export_ftp_dir : str;
}.

Definition set_key (key : string) (v : pyval) : M unit :=
  set_self (λ p, with_config (<[key := v]> (config p)) p).

Section plugin.
Context `{Host}.

Definition auto_export_enabled (p : Plugin) : pyval :=
  py_or (autoexport_need_export_to_local p) (autoexport_need_export_to_ftp p).

Definition header : list pyval :=
  [PStr (lit "transaction_hash"); PStr (lit "label");
   PStr (lit "confirmations"); PStr (lit "value"); PStr (lit "timestamp")].

(** The body of the loop of [get_exported_data]: the row of one item. *)
Definition exported_row (w : Wallet) (item : HistoryItem) : list pyval :=
  let time_string :=
    if 0 <? height item then
      match timestamp item with
      | Some t => format_time t
      | None => tr (lit "unverified")
      end
    else tr (lit "unconfirmed") in
  let value_string :=
    match value item with
    | Some v => format_satoshis v true
    | None => lit "--"
    end in
  let label :=
    match tx_hash item with
    | [] => []
    | _ => get_label w (tx_hash item)
    end in
  [PStr (tx_hash item); PStr label; PInt (confirmations item);
   PStr value_string; PStr time_string].

(** The export table of a wallet: the header, then a row per item. *)
Definition exported_table (w : Wallet) : list (list pyval) :=
  header :: map (exported_row w) (get_history w).

Definition get_exported_data : M (list (list pyval)) :=
  s <- get ;;
  match wallet (self s) with
  | None =>
      raise (AttributeError
               (lit "'NoneType' object has no attribute 'get_history'"))
  | Some w =>
      set_world (λ x, with_history_reads (S (history_reads x)) x) ;;
      ret (fold_left (λ lines item, lines ++ [exported_row w item])
                     (get_history w) [header])
  end.

Definition timestamp_filename (s : State) : str :=
  strftime (lit "%Y_%m_%d__%H_%M_%S") (clock (world s)) ++ lit ".csv".

(** The [with open(filepath, "w+") as f] block of [export_csv_local]: the
    rows go to the file through a csv writer, one [f.write] per row. *)
Definition write_csv_file (filepath : str) (lines : list (list pyval))
  : M unit :=
  open_w filepath ;;
  for_each lines (λ line,
    text <- lift (writerow line) ;;
    file_write filepath text).

(** The [try] block of [export_csv_local]. *)
Definition export_csv_local_try : M unit :=
  s <- get ;;
  if negb (truthy (autoexport_local_path (self s))) then ret tt else
  let filename := timestamp_filename s in
  filepath <- match autoexport_local_path (self s) with
              | PStr d => ret (os_path_join d filename)
              | _ => raise (TypeError
                       (lit "expected str, bytes or os.PathLike object"))
              end ;;
  lines <- get_exported_data ;;
  write_csv_file filepath lines.

Definition export_csv_local : M unit :=
  try_except export_csv_local_try (λ e, print_error (exn_str e)).

(** [int(v)]. *)
Definition py_int (v : pyval) : M Z :=
  match v with
  | PInt n => ret n
  | PBool b => ret (if b then 1 else 0)
  | PStr s =>
      match int_of_str s with
      | Some n => ret n
      | None =>
          raise (ValueError
                   (lit "invalid literal for int() with base 10: "
                    ++ py_repr s))
      end
  | PNone =>
      raise (TypeError
               (lit "int() argument must be a string, a bytes-like object or a real number, not 'NoneType'"))
  end.

(** The [StringIO] that the FTP sink fills row by row. *)
Fixpoint write_rows (str_f : str) (lines : list (list pyval)) : M str :=
  match lines with
  | [] => ret str_f
  | line :: lines' =>
      text <- lift (writerow line) ;;
      write_rows (str_f ++ text) lines'
  end.

(** [BytesIO(str_f.getvalue().encode('utf-8'))]. *)
Definition encode_utf8 (s : str) : M bytes :=
  match encode UTF8 s with
  | Some b => ret b
  | None => raise (UnicodeEncodeError
                     (lit "'utf-8' codec can't encode character"))
  end.

(** The buffer of [export_csv_ftp]: the rows go to a [StringIO] through a
    csv writer, and its value is encoded. *)
Definition csv_buffer (lines : list (list pyval)) : M bytes :=
  str_f <- write_rows [] lines ;;
  encode_utf8 str_f.

(** The [try] block of [export_csv_ftp]. *)
Definition export_csv_ftp_try : M unit :=
  s <- get ;;
  let p := self s in
  if negb (truthy (autoexport_ftp_host p))
     || negb (truthy (autoexport_ftp_port p)) then ret tt else
  if negb (truthy (autoexport_ftp_user p))
     || negb (truthy (autoexport_ftp_password p)) then ret tt else
  let filename := timestamp_filename s in
  lines <- get_exported_data ;;
  port <- py_int (autoexport_ftp_port p) ;;
  ftp_do (FtpConnect (autoexport_ftp_host p) port) ;;
  ftp_do (FtpLogin (autoexport_ftp_user p) (autoexport_ftp_password p)) ;;
  (if truthy (autoexport_ftp_dir p)
   then ftp_do (FtpCwd (autoexport_ftp_dir p)) else ret tt) ;;
  f <- csv_buffer lines ;;
  ftp_do (FtpStor (lit "STOR " ++ filename) f) ;;
  ftp_do FtpClose.

Definition export_csv_ftp : M unit :=
  try_except export_csv_ftp_try (λ e, print_error (exn_str e)).

Definition export_csv : M unit :=
  s <- get ;;
  (if truthy (autoexport_need_export_to_local (self s))
   then export_csv_local else ret tt) ;;
  s <- get ;;
  (if truthy (autoexport_need_export_to_ftp (self s))
   then export_csv_ftp else ret tt).

Definition status_text (interval : pyval) : str :=
  tr (lit "AutoExport: " ++ py_str interval ++ lit "sec.").

Definition create_status_bar : M unit :=
  s <- get ;;
  let p := self s in
  if truthy (autoexport_interval_seconds p) && truthy (auto_export_enabled p)
  then
    set_self (with_status_button (Some
      {| icon := status_connected;
         tooltip := status_text (autoexport_interval_seconds p) |}))
  else
    set_self (with_status_button (Some
      {| icon := status_disconnected; tooltip := tr (lit "AutoExport") |})).

Definition load_wallet (wallet' : option Wallet) (window' : nat) : M unit :=
  set_self (with_window (Some window')) ;;
  set_self (with_wallet wallet') ;;
  s <- get ;;
  if negb (bool_decide (is_Some (wallet (self s))))
     || negb (truthy (autoexport_interval_seconds (self s))) then ret tt else
  h <- call_repeatedly (autoexport_interval_seconds (self s)) ;;
  set_self (with_timer (Some h)).

Definition close_wallet : M unit :=
  set_self (with_wallet None) ;;
  s <- get ;;
  match timer (self s) with
  | Some h => stopped_set h
  | None => ret tt
  end.

Definition update_settings (initial : bool) : M unit :=
  set_self (λ p,
    let c := config p in
    with_settings
      (config_get c "autoexport_interval_seconds" (PInt 0))
      (config_get c "autoexport_need_export_to_local" (PBool false))
      (config_get c "autoexport_need_export_to_ftp" (PBool false))
      (config_get c "autoexport_local_path" (PStr []))
      (config_get c "autoexport_ftp_host" (PStr []))
      (config_get c "autoexport_ftp_port" (PInt 21))
      (config_get c "autoexport_ftp_user" (PStr []))
      (config_get c "autoexport_ftp_password" (PStr []))
      (config_get c "autoexport_ftp_dir" (PStr [])) p) ;;
  s <- get ;;
  match timer (self s) with
  | Some h => stopped_set h
  | None => ret tt
  end ;;
  set_self (with_timer None) ;;
  s <- get ;;
  let p := self s in
  if initial || negb (bool_decide (is_Some (wallet p)))
     || negb (truthy (autoexport_interval_seconds p)) then ret tt else
  h <- call_repeatedly (autoexport_interval_seconds p) ;;
  set_self (with_timer (Some h)) ;;
  if truthy (autoexport_interval_seconds p) && truthy (auto_export_enabled p)
  then
    setToolTip (status_text (autoexport_interval_seconds p)) ;;
    setIcon status_connected
  else
    setToolTip (tr (lit "AutoExport")) ;;
    setIcon status_disconnected.

(** The end of [settings_dialog], once the dialog is accepted: the form is
    stored key by key and the settings are read again. *)
Definition settings_dialog_accept (form : SettingsForm) : M unit :=
  let int_export_interval_seconds :=
    default 0 (int_of_str (export_interval_seconds form)) in
  set_key "autoexport_interval_seconds" (PInt int_export_interval_seconds) ;;
  set_key "autoexport_need_export_to_ftp"
          (PBool (export_need_export_to_ftp form)) ;;
  set_key "autoexport_need_export_to_local"
          (PBool (export_need_export_to_local form)) ;;
  set_key "autoexport_local_path" (PStr (export_local_path form)) ;;
  set_key "autoexport_ftp_host" (PStr (export_ftp_host form)) ;;
  set_key "autoexport_ftp_port" (PStr (export_ftp_port form)) ;;
  set_key "autoexport_ftp_user" (PStr (export_ftp_user form)) ;;
  set_key "autoexport_ftp_password" (PStr (export_ftp_password form)) ;;
  set_key "autoexport_ftp_dir" (PStr (export_ftp_dir form)) ;;
  update_settings false.

(** The object before [__init__] has run: the class attributes [wallet]
    and [timer] are [None], nothing else is set. *)
Definition new_plugin (c : gmap string pyval) : Plugin :=
  {| config := c; wallet := None; window := None; timer := None;
     status_button := None;
     autoexport_interval_seconds := PNone;
     autoexport_need_export_to_local := PNone;
     autoexport_need_export_to_ftp := PNone;
     autoexport_local_path := PNone;
     autoexport_ftp_host := PNone;
     autoexport_ftp_port := PNone;
     autoexport_ftp_user := PNone;
     autoexport_ftp_password := PNone;
     autoexport_ftp_dir := PNone |}.

(** [Plugin.__init__]. *)
Definition init : M unit := update_settings true.

(** The body of a timer thread at one expiry of its interval: it goes on
    only if its event is not set, and then calls [export_csv] on the
    plugin object as it is at that moment. *)
Definition timer_fires (h : nat) : M unit :=
  s <- get ;;
  match timers (world s) !! h with
  | Some t => if t_stopped t then ret tt else export_csv
  | None => ret tt
  end.

(** What happens to a plugin: the hooks called by Electrum, the settings
    dialog, a timer expiring. *)
Inductive event :=
  | CreateStatusBar
  | LoadWallet (w : option Wallet) (win : nat)
  | CloseWallet
  | SettingsAccepted (form : SettingsForm)
  | TimerFires (h : nat).

Definition handle (ev : event) : M unit :=
  match ev with
  | CreateStatusBar => create_status_bar
  | LoadWallet w win => load_wallet w win
  | CloseWallet => close_wallet
  | SettingsAccepted form => settings_dialog_accept form
  | TimerFires h => timer_fires h
  end.

(** The state after an event, whether its handler returned or raised. *)
Definition step (s : State) (ev : event) : State := (handle ev s).2.

Definition run (s : State) (evs : list event) : State :=
  fold_left step evs s.

(** A freshly constructed plugin in a world without timers. *)
Definition initial_state (c : gmap string pyval) (w : World) : State :=
  (init {| self := new_plugin c; world := with_timers [] w |}).2.

Definition reachable (s : State) : Prop :=
  ∃ c w evs, s = run (initial_state c w) evs.

End plugin.

(** ** Reading a text file back

    [open(path)] (or [open(path, newline='')]) and [csv.reader(f)]: the
    reader of the [excel] dialect, as the state machine of the library. *)

Local Open Scope N_scope.

Definition is_cont (b : N) : bool := (0x80 <=? b) && (b <? 0xC0).

(** UTF-8 decoding, strict: no overlong forms, no surrogates. *)
Fixpoint utf8_decode (bs : bytes) : option str :=
  match bs with
  | [] => Some []
  | b0 :: r0 =>
      if b0 <? 0x80 then cons b0 <$> utf8_decode r0
      else if b0 <? 0xC2 then None
      else if b0 <? 0xE0 then
        match r0 with
        | b1 :: r1 =>
            if is_cont b1
            then cons ((b0 - 0xC0) * 0x40 + (b1 - 0x80)) <$> utf8_decode r1
            else None
        | _ => None
        end
      else if b0 <? 0xF0 then
        match r0 with
        | b1 :: b2 :: r2 =>
            let c := (b0 - 0xE0) * 0x1000 + (b1 - 0x80) * 0x40 + (b2 - 0x80) in
            if is_cont b1 && is_cont b2 && (0x800 <=? c)
               && negb ((0xD800 <=? c) && (c <=? 0xDFFF))
            then cons c <$> utf8_decode r2
            else None
        | _ => None
        end
      else if b0 <? 0xF5 then
        match r0 with
        | b1 :: b2 :: b3 :: r3 =>
            let c := (b0 - 0xF0) * 0x40000 + (b1 - 0x80) * 0x1000
                     + (b2 - 0x80) * 0x40 + (b3 - 0x80) in
            if is_cont b1 && is_cont b2 && is_cont b3
               && (0x10000 <=? c) && (c <? 0x110000)
            then cons c <$> utf8_decode r3
            else None
        | _ => None
        end
      else None
  end.

Fixpoint decode_below (bound : N) (bs : bytes) : option str :=
  match bs with
  | [] => Some []
  | b :: bs' => if b <? bound then cons b <$> decode_below bound bs' else None
  end.

(** [b.decode(enc)], strict. *)
Definition decode (enc : codec) (bs : bytes) : option str :=
  match enc with
  | UTF8 => utf8_decode bs
  | ASCII => decode_below 0x80 bs
  | Latin1 => decode_below 0x100 bs
  end.

(** Newline translation on input ([newline=None]): a carriage return, with
    the line feed after it if there is one, becomes a line feed. *)
Fixpoint universal_newlines (s : str) : str :=
  match s with
  | [] => []
  | c :: rest =>
      if c =? 13 then
        match rest with
        | c' :: rest' =>
            if c' =? 10 then 10 :: universal_newlines rest'
            else 10 :: universal_newlines rest
        | [] => [10]
        end
      else c :: universal_newlines rest
  end.

(** The lines of a text, each with its ending: a line ends after a line
    feed, after a carriage return, or after the pair of them. *)
Fixpoint lines_from (cur : str) (s : str) : list str :=
  match s with
  | [] => match cur with [] => [] | _ => [cur] end
  | c :: rest =>
      if c =? 10 then (cur ++ [c]) :: lines_from [] rest
      else if c =? 13 then
        match rest with
        | c' :: rest' =>
            if c' =? 10 then (cur ++ [c; c']) :: lines_from [] rest'
            else (cur ++ [c]) :: lines_from [] rest
        | [] => [cur ++ [c]]
        end
      else lines_from (cur ++ [c]) rest
  end.

(** The lines that iterating over the file yields: with newline translation
    ([universal], the default of [open]) or without ([newline='']). *)
Definition file_lines (universal : bool) (text : str) : list str :=
  lines_from [] (if universal then universal_newlines text else text).

Inductive parser_state :=
  | START_RECORD
  | START_FIELD
  | IN_FIELD
  | IN_QUOTED_FIELD
  | QUOTE_IN_QUOTED_FIELD
  | EAT_CRNL.

Record Reader := {
  state : parser_state;
  fields : list str;
  field : str;
}.

Definition parse_reset : Reader :=
  {| state := START_RECORD; fields := []; field := [] |}.

Definition set_state (st : parser_state) (r : Reader) : Reader :=
  {| state := st; fields := fields r; field := field r |}.

(** [csv.field_size_limit()]. *)
Definition field_limit : N := 131072.

Definition parse_add_char (r : Reader) (c : N) : exn + Reader :=
  if field_limit <=? N.of_nat (length (field r)) then
    inl (CsvError (lit "field larger than field limit (131072)"))
  else inr {| state := state r; fields := fields r; field := field r ++ [c] |}.

Definition parse_save_field (r : Reader) : Reader :=
  {| state := state r; fields := fields r ++ [field r]; field := [] |}.

Definition is_newline (c : N) : bool := (c =? 10) || (c =? 13).

(** After a line feed or carriage return the record is over; at the end of
    the line ([c] is NUL) the reader is ready for the next record. *)
Definition end_of_record (c : N) (r : Reader) : Reader :=
  set_state (if c =? 0 then START_RECORD else EAT_CRNL) (parse_save_field r).

Definition parse_start_field (r : Reader) (c : N) : exn + Reader :=
  if is_newline c || (c =? 0) then inr (end_of_record c r)
  else if c =? quotechar then inr (set_state IN_QUOTED_FIELD r)
  else if c =? delimiter then inr (parse_save_field r)
  else
    match parse_add_char r c with
    | inl e => inl e
    | inr r' => inr (set_state IN_FIELD r')
    end.

(** [parse_process_char]; the end of a line is signalled by NUL.  The states
    about escape characters are left out: without an escape character they
    are never entered. *)
Definition parse_process_char (r : Reader) (c : N) : exn + Reader :=
  match state r with
  | START_RECORD =>
      if c =? 0 then inr r
      else if is_newline c then inr (set_state EAT_CRNL r)
      else parse_start_field (set_state START_FIELD r) c
  | START_FIELD => parse_start_field r c
  | IN_FIELD =>
      if is_newline c || (c =? 0) then inr (end_of_record c r)
      else if c =? delimiter then inr (set_state START_FIELD (parse_save_field r))
      else parse_add_char r c
  | IN_QUOTED_FIELD =>
      if c =? 0 then inr r
      else if c =? quotechar then inr (set_state QUOTE_IN_QUOTED_FIELD r)
      else parse_add_char r c
  | QUOTE_IN_QUOTED_FIELD =>
      if c =? quotechar then
        match parse_add_char r c with
        | inl e => inl e
        | inr r' => inr (set_state IN_QUOTED_FIELD r')
        end
      else if c =? delimiter then inr (set_state START_FIELD (parse_save_field r))
      else if is_newline c || (c =? 0) then inr (end_of_record c r)
      else
        match parse_add_char r c with
        | inl e => inl e
        | inr r' => inr (set_state IN_FIELD r')
        end
  | EAT_CRNL =>
      if is_newline c then inr r
      else if c =? 0 then inr (set_state START_RECORD r)
      else inl (CsvError (lit "new-line character seen in unquoted field"))
  end.

Fixpoint parse_chars (r : Reader) (line : str) : exn + Reader :=
  match line with
  | [] => inr r
  | c :: line' =>
      if c =? 0 then inl (CsvError (lit "line contains NULL byte"))
      else
        match parse_process_char r c with
        | inl e => inl e
        | inr r' => parse_chars r' line'
        end
  end.

(** One line of input: its characters, then the end-of-line signal. *)
Definition parse_line (r : Reader) (line : str) : exn + Reader :=
  match parse_chars r line with
  | inl e => inl e
  | inr r' => parse_process_char r' 0
  end.

(** All the records of the input: a record is complete when a line leaves
    the reader in [START_RECORD]; input that ends inside a field gives a last
    record. *)
Fixpoint reader_rows (lines : list str) (r : Reader) : exn + list (list str) :=
  match lines with
  | [] =>
      match field r, state r with
      | _ :: _, _ | _, IN_QUOTED_FIELD => inr [fields (parse_save_field r)]
      | _, _ => inr []
      end
  | line :: lines' =>
      match parse_line r line with
      | inl e => inl e
      | inr r' =>
          match state r' with
          | START_RECORD =>
              match reader_rows lines' parse_reset with
              | inl e => inl e
              | inr rows => inr (fields r' :: rows)
              end
          | _ => reader_rows lines' r'
          end
      end
  end.

(** [list(csv.reader(open(path)))] on a file of the given content. *)
Definition csv_read_file (pf : Platform) (universal : bool) (content : bytes)
  : exn + list (list str) :=
  match decode (encoding pf) content with
  | None => inl (UnicodeDecodeError (lit "codec can't decode byte"))
  | Some text => reader_rows (file_lines universal text) parse_reset
  end.

Local Close Scope N_scope.

(** ** Notions used in the properties *)

(** Every timer thread that is still looping is the one whose handle the
    plugin holds. *)
Definition only_held_live (s : State) : Prop :=
  ∀ i t, timers (world s) !! i = Some t → t_stopped t = false →
         timer (self s) = Some i.

(** A computation that leaves the plugin object as it is. *)
Definition keeps_self {A} (m : M A) : Prop := ∀ s, self (m s).2 = self s.

(** The state in which a file has the given content. *)
Definition put_file (path : str) (content : bytes) (s : State) : State :=
  {| self := self s;
     world := with_files (<[path := content]> (files (world s))) (world s) |}.

(** The state once an error message is logged. *)
Definition logged (msg : str) (s : State) : State :=
  {| self := self s;
     world := with_errors (errors (world s) ++ [msg]) (world s) |}.

(** *** What the writer puts out, and what the reader can take back *)

Local Open Scope N_scope.

(** The data of a field with its quotes doubled. *)
Definition escape (f : str) : str :=
  f ≫= (λ c, if c =? quotechar then [quotechar; quotechar] else [c]).

(** The characters because of which a field is quoted. *)
Definition special (c : N) : bool :=
  (c =? quotechar) || (c =? delimiter) || bool_decide (c ∈ lineterminator).

Definition needs_quotes (f : str) : bool := existsb special f.

(** A field as written. *)
Definition field_out (f : str) : str :=
  if needs_quotes f then [quotechar] ++ escape f ++ [quotechar] else escape f.

(** The fields after the first one, each behind its delimiter. *)
Definition tail_out (fs : list str) : str :=
  fs ≫= (λ f, delimiter :: field_out f).

(** A row as written, line terminator included. *)
Definition row_out (fs : list str) : str :=
  match fs with
  | [] => []
  | f :: fs' =>
      match field_out f ++ tail_out fs' with
      | [] => [quotechar; quotechar]
      | rec => rec
      end
  end ++ lineterminator.

(** The same text, cut into fields each followed by what ends it. *)
Fixpoint chain (fs : list str) (rest : str) : str :=
  match fs with
  | [] => rest
  | [f] => field_out f ++ 10 :: rest
  | f :: fs' => field_out f ++ delimiter :: chain fs' rest
  end.

(** A field that comes back from the file as it went in: no NUL, no carriage
    return, not longer than the reader's limit. *)
Definition readable (f : str) : Prop :=
  (0 ∉ f) ∧ (13 ∉ f) ∧ (N.of_nat (length f) ≤ field_limit).

(** The text of a cell can be encoded. *)
Definition encodable (enc : codec) (f : str) : Prop :=
  Forall (λ c, is_Some (encode_char enc c)) f.

#[global] Instance readable_dec f : Decision (readable f).
Proof. unfold readable. apply _. Defined.

#[global] Instance encodable_dec enc f : Decision (encodable enc f).
Proof. unfold encodable. apply _. Defined.

(** A cell whose text goes to the file and comes back. *)
Definition round_trips (enc : codec) (v : pyval) : Prop :=
  readable (field_text v) ∧ encodable enc (field_text v).

#[global] Instance round_trips_dec enc v : Decision (round_trips enc v).
Proof. unfold round_trips. apply _. Defined.

(** With the reader in state [r] in the middle of a line, the rest of the
    input being [text], the reader ends up with [rows]: whatever the line
    began with, as long as it brought the reader to [r]. *)
Definition reads_as (r : Reader) (text : str) (rows : list (list str)) : Prop :=
  ∀ r0 cur, parse_chars r0 cur = inr r →
            reader_rows (lines_from cur text) r0 = inr rows.

(** The reader at the start of a field, the fields [fs] being read. *)
Definition field_start (r : Reader) (fs : list str) : Prop :=
  r = {| state := START_FIELD; fields := fs; field := [] |}
  ∨ (r = parse_reset ∧ fs = []).

(** The reader once the text of the field [f] is behind it. *)
Definition after_field (r : Reader) (fs : list str) (f : str) : Prop :=
  r = {| state := IN_FIELD; fields := fs; field := f |}
  ∨ r = {| state := QUOTE_IN_QUOTED_FIELD; fields := fs; field := f |}
  ∨ (r = {| state := START_FIELD; fields := fs; field := [] |} ∧ f = [])
  ∨ (r = parse_reset ∧ fs = [] ∧ f = []).

Local Close Scope N_scope.

(** ** The settings dialog *)

Section dialog.
Context `{Host}.

(** [int(v)] as a value: [None] when [int] raises. *)
Definition int_value (v : pyval) : option Z :=
  match v with
  | PInt n => Some n
  | PBool b => Some (if b then 1 else 0)
  | PStr s => int_of_str s
  | PNone => None
  end.

(** [try: default_value = str(int(v))  except: default_value = fallback]. *)
Definition int_text (v : pyval) (fallback : str) : str :=
  match int_value v with
  | Some n => lit (pretty n)
  | None => fallback
  end.

(** What the widgets of the dialog show when it opens: each default value is
    computed from the attribute of the plugin, [bool(v)] for the check boxes
    and [str(v)] for the texts. *)
Definition dialog_defaults (p : Plugin) : SettingsForm :=
  {| export_interval_seconds :=
       int_text (autoexport_interval_seconds p) (lit "0");
     export_need_export_to_ftp := truthy (autoexport_need_export_to_ftp p);
     export_need_export_to_local := truthy (autoexport_need_export_to_local p);
     export_local_path := py_str (autoexport_local_path p);
     export_ftp_host := py_str (autoexport_ftp_host p);
     export_ftp_port := int_text (autoexport_ftp_port p) (lit "21");
     export_ftp_user := py_str (autoexport_ftp_user p);
     export_ftp_password := py_str (autoexport_ftp_password p);
     export_ftp_dir := py_str (autoexport_ftp_dir p) |}.

(** [settings_dialog]: the dialog is filled with the defaults and run; what
    the user does with it is a function from the form shown to the form
    accepted, or to nothing when the dialog is closed ([d.exec_()] false). *)
Definition settings_dialog (user : SettingsForm → option SettingsForm)
  : M unit :=
  s <- get ;;
  match user (dialog_defaults (self s)) with
  | None => ret tt
  | Some form => settings_dialog_accept form
  end.

(** The configuration once the nine keys of a form are set. *)
Definition form_config (form : SettingsForm) (c : gmap string pyval)
  : gmap string pyval :=
  <["autoexport_ftp_dir" := PStr (export_ftp_dir form)]>
  (<["autoexport_ftp_password" := PStr (export_ftp_password form)]>
  (<["autoexport_ftp_user" := PStr (export_ftp_user form)]>
  (<["autoexport_ftp_port" := PStr (export_ftp_port form)]>
  (<["autoexport_ftp_host" := PStr (export_ftp_host form)]>
  (<["autoexport_local_path" := PStr (export_local_path form)]>
  (<["autoexport_need_export_to_local" :=
       PBool (export_need_export_to_local form)]>
  (<["autoexport_need_export_to_ftp" :=
       PBool (export_need_export_to_ftp form)]>
  (<["autoexport_interval_seconds" :=
       PInt (default 0 (int_of_str (export_interval_seconds form)))]>
   c)))))))).

(** What the dialog shows the next time it opens, once a form has been
    accepted: the two numbers are parsed and printed again. *)
Definition shown_again (form : SettingsForm) : SettingsForm :=
  {| export_interval_seconds :=
       lit (pretty (default 0 (int_of_str (export_interval_seconds form))));
     export_need_export_to_ftp := export_need_export_to_ftp form;
     export_need_export_to_local := export_need_export_to_local form;
     export_local_path := export_local_path form;
     export_ftp_host := export_ftp_host form;
     export_ftp_port :=
       match int_of_str (export_ftp_port form) with
       | Some n => lit (pretty n)
       | None => lit "21"
       end;
     export_ftp_user := export_ftp_user form;
     export_ftp_password := export_ftp_password form;
     export_ftp_dir := export_ftp_dir form |}.

End dialog.

(** ** More notions used in the properties *)

(** A computation that leaves an observation of the state as it is. *)
Definition keeps {A X} (f : State → X) (m : M A) : Prop :=
  ∀ s, f (m s).2 = f s.

(** The handle that the plugin holds designates a timer that exists. *)
Definition handle_valid (s : State) : Prop :=
  ∀ h, timer (self s) = Some h → (h < length (timers (world s)))%nat.

(** The four settings without which [export_csv_ftp] returns at once. *)
Definition ftp_configured (p : Plugin) : bool :=
  truthy (autoexport_ftp_host p) && truthy (autoexport_ftp_port p)
  && truthy (autoexport_ftp_user p) && truthy (autoexport_ftp_password p).

(** The commands of one upload, in the order of [export_csv_ftp]: those
    sent before the buffer is made, and all of them. *)
Definition ftp_preamble (p : Plugin) (port : Z) : list ftp_cmd :=
  [FtpConnect (autoexport_ftp_host p) port;
   FtpLogin (autoexport_ftp_user p) (autoexport_ftp_password p)]
  ++ (if truthy (autoexport_ftp_dir p)
      then [FtpCwd (autoexport_ftp_dir p)] else []).

Definition ftp_session (p : Plugin) (port : Z) (filename : str) (f : bytes)
  : list ftp_cmd :=
  ftp_preamble p port ++ [FtpStor (lit "STOR " ++ filename) f; FtpClose].

(** The commands that go out when the server may refuse: all of them up to
    the first one refused, that one included. *)
Fixpoint attempted (refuses : ftp_cmd → option exn) (cmds : list ftp_cmd)
  : list ftp_cmd :=
  match cmds with
  | [] => []
  | c :: cmds' =>
      match refuses c with
      | Some _ => [c]
      | None => c :: attempted refuses cmds'
      end
  end.

Fixpoint first_refusal (refuses : ftp_cmd → option exn) (cmds : list ftp_cmd)
  : option exn :=
  match cmds with
  | [] => None
  | c :: cmds' =>
      match refuses c with
      | Some e => Some e
      | None => first_refusal refuses cmds'
      end
  end.

(** The header line of every export. *)
Definition header_line : str :=
  lit "transaction_hash,label,confirmations,value,timestamp" ++ [10%N].

(** The state after an upload attempt that got as far as the server. *)
Definition after_upload (s : State) (sent : list ftp_cmd) : State :=
  {| self := self s;
     world := with_ftp_sent (ftp_sent (world s) ++ sent)
                (with_history_reads (S (history_reads (world s))) (world s)) |}.

(** The button that goes with the settings of a plugin. *)
Definition status_of `{Host} (p : Plugin) : StatusBarButton :=
  if truthy (autoexport_interval_seconds p) && truthy (auto_export_enabled p)
  then {| icon := status_connected;
          tooltip := status_text (autoexport_interval_seconds p) |}
  else {| icon := status_disconnected; tooltip := tr (lit "AutoExport") |}.

(** The nine settings that the plugin holds as attributes, and the values
    that [update_settings] reads for them from a configuration. *)
Definition settings (p : Plugin) : list pyval :=
  [autoexport_interval_seconds p; autoexport_need_export_to_local p;
   autoexport_need_export_to_ftp p; autoexport_local_path p;
   autoexport_ftp_host p; autoexport_ftp_port p; autoexport_ftp_user p;
   autoexport_ftp_password p; autoexport_ftp_dir p].

Definition config_settings (c : gmap string pyval) : list pyval :=
  [config_get c "autoexport_interval_seconds" (PInt 0);
   config_get c "autoexport_need_export_to_local" (PBool false);
   config_get c "autoexport_need_export_to_ftp" (PBool false);
   config_get c "autoexport_local_path" (PStr []);
   config_get c "autoexport_ftp_host" (PStr []);
   config_get c "autoexport_ftp_port" (PInt 21);
   config_get c "autoexport_ftp_user" (PStr []);
   config_get c "autoexport_ftp_password" (PStr []);
   config_get c "autoexport_ftp_dir" (PStr [])].

(** The attributes are those of the configuration. *)
Definition configured (s : State) : Prop :=
  settings (self s) = config_settings (config (self s)).

(** A timer of the earlier state is still there in the later one, with
    its interval, and stopped if it was. *)
Definition timers_go_on (s s' : State) : Prop :=
  ∀ i t, timers (world s) !! i = Some t →
    ∃ t', timers (world s') !! i = Some t'
          ∧ t_interval t' = t_interval t
          ∧ (t_stopped t = true → t_stopped t' = true).

(** ** Sample data *)

Module Sample.

Fixpoint digits (s : str) (acc : Z) : option Z :=
  match s with
  | [] => Some acc
  | c :: s' =>
      if ((48 <=? c) && (c <=? 57))%N
      then digits s' (10 * acc + Z.of_N (c - 48))
      else None
  end.

#[global] Instance host : Host := {|
  tr := λ s, s;
  format_time := λ t, lit (pretty t);
  format_satoshis := λ v _, lit (pretty v);
  strftime := λ _ t, lit (pretty t);
  os_path_join := λ d f, d ++ lit "/" ++ f;
  int_of_str := λ s, match s with [] => None | _ => digits s 0 end;
  py_repr := λ s, [39%N] ++ s ++ [39%N];
|}.

Definition posix : Platform := {| linesep := LF; encoding := UTF8 |}.
Definition windows : Platform := {| linesep := CRLF; encoding := UTF8 |}.

Definition empty_world (pf : Platform) : World :=
  {| platform := pf; clock := 1690000000; timers := []; files := ∅;
     unwritable := ∅; ftp_refuses := λ _, None; ftp_sent := [];
     history_reads := 0; errors := [] |}.

(** A plugin as its constructor leaves it, for an empty configuration. *)
Definition host_free_plugin : Plugin :=
  with_settings (PInt 0) (PBool false) (PBool false) (PStr []) (PStr [])
                (PInt 21) (PStr []) (PStr []) (PStr []) (new_plugin ∅).

Definition a_wallet : Wallet :=
  {| get_history :=
       [ {| tx_hash := lit "abc123"; height := 100; confirmations := 3;
            timestamp := Some 1690000000; value := Some 5000;
            balance := Some 5000 |};
         {| tx_hash := []; height := 0; confirmations := 0;
            timestamp := None; value := None; balance := None |} ];
     get_label := λ _, lit "rent, " ++ [34%N] ++ lit "May" ++ [34%N] |}.

Definition a_config : gmap string pyval :=
  {[ "autoexport_interval_seconds" := PInt 5;
     "autoexport_need_export_to_local" := PBool true;
     "autoexport_need_export_to_ftp" := PBool true;
     "autoexport_local_path" := PStr (lit "/tmp/out");
     "autoexport_ftp_host" := PStr (lit "ftp.example.org");
     "autoexport_ftp_port" := PStr (lit "21");
     "autoexport_ftp_user" := PStr (lit "user");
     "autoexport_ftp_password" := PStr (lit "secret") ]}.

(** Both sinks configured, the status bar made, a wallet loaded. *)
Definition active (w : World) : State :=
  run (initial_state a_config w) [CreateStatusBar; LoadWallet (Some a_wallet) 0].

(** The same, after the timer has fired once. *)
Definition exported_once : State := run (active (empty_world posix)) [TimerFires 0].

(** The active plugin once its configuration store has been emptied. *)
Definition config_cleared : State :=
  {| self := with_config ∅ (self (active (empty_world posix)));
     world := world (active (empty_world posix)) |}.

Definition csv_path : str := lit "/tmp/out/1690000000.csv".

(** A world in which the export file cannot be opened. *)
Definition locked_world : World :=
  {| platform := posix; clock := 1690000000; timers := []; files := ∅;
     unwritable := {[ csv_path ]}; ftp_refuses := λ _, None; ftp_sent := [];
     history_reads := 0; errors := [] |}.

(** A plugin without FTP host. *)
Definition no_host : State :=
  {| self := with_settings (PInt 5) (PBool false) (PBool true) (PStr [])
               (PStr []) (PInt 21) (PStr (lit "user")) (PStr (lit "secret"))
               (PStr []) (with_wallet (Some a_wallet) (new_plugin ∅));
     world := empty_world posix |}.

(** The active plugin once its wallet has been closed. *)
Definition closed : State :=
  run (active (empty_world posix)) [CloseWallet].

(** A platform whose text files are in Latin-1. *)
Definition latin1 : Platform := {| linesep := LF; encoding := Latin1 |}.

(** A world in which the export file exists already. *)
Definition stale_world (pf : Platform) : World :=
  {| platform := pf; clock := 1690000000; timers := [];
     files := {[ csv_path := lit "old export" ]};
     unwritable := ∅; ftp_refuses := λ _, None; ftp_sent := [];
     history_reads := 0; errors := [] |}.

(** The same, the file being read-only. *)
Definition readonly_world : World :=
  {| platform := posix; clock := 1690000000; timers := [];
     files := {[ csv_path := lit "old export" ]};
     unwritable := {[ csv_path ]}; ftp_refuses := λ _, None; ftp_sent := [];
     history_reads := 0; errors := [] |}.

(** A wallet whose second transaction is labelled with a Greek capital
    omega. *)
Definition greek_wallet : Wallet :=
  {| get_history :=
       [ {| tx_hash := lit "abc123"; height := 100; confirmations := 3;
            timestamp := Some 1690000000; value := Some 5000;
            balance := Some 5000 |};
         {| tx_hash := lit "def456"; height := 101; confirmations := 2;
            timestamp := Some 1690000600; value := Some (-700);
            balance := Some 4300 |} ];
     get_label := λ h, if decide (h = lit "abc123") then lit "rent"
                       else [937%N] |}.

(** That wallet loaded on a Latin-1 platform. *)
Definition greek : State :=
  run (initial_state a_config (stale_world latin1))
      [CreateStatusBar; LoadWallet (Some greek_wallet) 0].

(** A wallet whose labels hold a lone surrogate. *)
Definition surrogate_wallet : Wallet :=
  {| get_history := get_history a_wallet;
     get_label := λ _, [0xD800%N] |}.

Definition surrogate : State :=
  run (initial_state a_config (empty_world posix))
      [CreateStatusBar; LoadWallet (Some surrogate_wallet) 0].

(** A server that lets nobody in. *)
Definition strict_world : World :=
  {| platform := posix; clock := 1690000000; timers := []; files := ∅;
     unwritable := ∅;
     ftp_refuses := λ c, match c with
                         | FtpLogin _ _ =>
                             Some (FtpError (lit "530 Login incorrect"))
                         | _ => None
                         end;
     ftp_sent := []; history_reads := 0; errors := [] |}.

(** The active plugin with a port that is not a number. *)
Definition bad_port : State :=
  run (initial_state (<["autoexport_ftp_port" := PStr (lit "ftp")]> a_config)
                     (empty_world posix))
      [CreateStatusBar; LoadWallet (Some a_wallet) 0].

(** A wallet loaded in a plugin whose status bar has not been made. *)
Definition no_status_bar : State :=
  run (initial_state a_config (empty_world posix))
      [LoadWallet (Some a_wallet) 0].

Definition a_form : SettingsForm :=
  {| export_interval_seconds := lit "x";
     export_need_export_to_ftp := true;
     export_need_export_to_local := false;
     export_local_path := lit "/tmp/out";
     export_ftp_host := lit "ftp.example.org";
     export_ftp_port := [];
     export_ftp_user := lit "user";
     export_ftp_password := lit "secret";
     export_ftp_dir := lit "in" |}.

End Sample.

(** * Properties *)

Local Open Scope nat_scope.

(** ** Running the monad *)

Lemma bind_ret {A B} (a : A) (k : A → M B) s : bind (ret a) k s = k a s.
Proof. reflexivity. Qed.

Lemma bind_raise {A B} (e : exn) (k : A → M B) s :
  bind (raise e) k s = (inl e, s).
Proof. reflexivity. Qed.

Lemma bind_get {B} (k : State → M B) s : bind get k s = k s s.
Proof. reflexivity. Qed.

Lemma bind_modify {B} f (k : unit → M B) s : bind (modify f) k s = k tt (f s).
Proof. reflexivity. Qed.

Lemma bind_run {A B} (m : M A) (k : A → M B) s a s' :
  m s = (inr a, s') → bind m k s = k a s'.
Proof. unfold bind. by intros ->. Qed.

Lemma bind_fail {A B} (m : M A) (k : A → M B) s e s' :
  m s = (inl e, s') → bind m k s = (inl e, s').
Proof. unfold bind. by intros ->. Qed.

Lemma bind_assoc {A B C} (m : M A) (k : A → M B) (k' : B → M C) s :
  bind (bind m k) k' s = bind m (λ a, bind (k a) k') s.
Proof. unfold bind. destruct (m s) as [[e|a] s']; reflexivity. Qed.

Ltac run_m :=
  repeat (rewrite ?bind_ret, ?bind_raise, ?bind_get, ?bind_modify;
          unfold set_self, set_world; simpl).

(** ** Timers: wallet load, wallet close, settings update *)

Section lifecycle.
Context `{Host}.

(** Stopping a timer never starts one. *)
Lemma stop_live_length h (l : list Timer) :
  length (filter (λ t, t_stopped t = false) (alter stop h l))
  ≤ length (filter (λ t, t_stopped t = false) l).
Proof.
  revert h. induction l as [|t l IH]; intros [|h]; simpl; try lia.
  - rewrite !filter_cons; simpl. case_decide; simpl; lia.
  - rewrite !filter_cons. pose proof (IH h) as IH'.
    change (alter stop h l) with (list_alter stop h l) in IH'.
    case_decide; simpl; lia.
Qed.

Lemma stopped_set_run h s :
  stopped_set h s =
  (inr tt, {| self := self s;
              world := with_timers (alter stop h (timers (world s)))
                                   (world s) |}).
Proof. reflexivity. Qed.

Lemma load_wallet_idle w win s :
  truthy (autoexport_interval_seconds (self s)) = false →
  load_wallet w win s =
  (inr tt, {| self := with_wallet w (with_window (Some win) (self s));
              world := world s |}).
Proof.
  intros Hi. unfold load_wallet. run_m. rewrite Hi.
  by rewrite orb_true_r.
Qed.

Lemma update_settings_idle initial s :
  truthy (config_get (config (self s)) "autoexport_interval_seconds" (PInt 0))
    = false →
  ∃ s', update_settings initial s = (inr tt, s')
    ∧ timer (self s') = None
    ∧ autoexport_interval_seconds (self s') =
        config_get (config (self s)) "autoexport_interval_seconds" (PInt 0)
    ∧ length (timers (world s')) = length (timers (world s))
    ∧ length (live_timers (world s')) ≤ length (live_timers (world s)).
Proof.
  intros Hi. unfold update_settings. run_m.
  destruct (timer (self s)) as [h|] eqn:Ht.
  - rewrite (bind_run _ _ _ tt _ (stopped_set_run h _)). run_m.
    rewrite Hi, orb_true_r. eexists; split; [reflexivity|]. simpl.
    repeat split; [by rewrite length_alter|].
    apply stop_live_length.
  - run_m. rewrite Hi, orb_true_r. eexists; split; [reflexivity|]. simpl.
    repeat split; lia.
Qed.

(** *** The invariant that the other handlers keep *)

Lemma no_live_filter (l : list Timer) :
  (∀ j u, l !! j = Some u → t_stopped u = true) →
  filter (λ t, t_stopped t = false) l = [].
Proof.
  induction l as [|t l IH]; intros Hl; [done|]. rewrite filter_cons.
  pose proof (Hl 0 t eq_refl) as Ht. rewrite decide_False by congruence.
  apply IH. intros j u Hj. apply (Hl (S j) u Hj).
Qed.

Lemma one_live_index (l : list Timer) :
  (∀ i j t u, l !! i = Some t → l !! j = Some u →
              t_stopped t = false → t_stopped u = false → i = j) →
  length (filter (λ t, t_stopped t = false) l) ≤ 1.
Proof.
  induction l as [|t l IH]; intros Hl; [simpl; lia|]. rewrite filter_cons.
  case_decide as Ht.
  - rewrite no_live_filter; [simpl; lia|]. intros j u Hj.
    destruct (t_stopped u) eqn:Hu; [done|].
    by specialize (Hl 0 (S j) t u eq_refl Hj Ht Hu).
  - apply IH. intros i j a b Hi Hj Ha Hb.
    specialize (Hl (S i) (S j) a b Hi Hj Ha Hb). lia.
Qed.

(** If only the held timer can be live, at most one timer is live. *)
Lemma only_held_live_at_most_one s :
  only_held_live s → length (live_timers (world s)) ≤ 1.
Proof.
  intros Hs. apply one_live_index. intros i j t u Hi Hj Ht Hu.
  pose proof (Hs i t Hi Ht). pose proof (Hs j u Hj Hu). congruence.
Qed.

Lemma alter_stop_live h (l : list Timer) i t :
  alter stop h l !! i = Some t → t_stopped t = false →
  i ≠ h ∧ l !! i = Some t.
Proof.
  intros Hi Ht. destruct (decide (h = i)) as [->|Hne].
  - rewrite list_lookup_alter_eq in Hi.
    destruct (l !! i) as [x|]; simpl in Hi; [|done].
    injection Hi as <-. done.
  - rewrite list_lookup_alter_ne in Hi by done. done.
Qed.

(** The timers once the held one, if any, is stopped. *)
Lemma held_stopped_none_live s i t :
  only_held_live s →
  match timer (self s) with
  | Some h => alter stop h (timers (world s))
  | None => timers (world s)
  end !! i = Some t →
  t_stopped t = true.
Proof.
  intros Hs Hi. destruct (t_stopped t) eqn:Ht; [done|].
  destruct (timer (self s)) as [h|] eqn:Hh.
  - destruct (alter_stop_live _ _ _ _ Hi Ht) as [Hne Hi'].
    pose proof (Hs i t Hi' Ht). congruence.
  - pose proof (Hs i t Hi Ht). congruence.
Qed.

(** [close_wallet] stops the held timer: no timer is live afterwards. *)
Lemma close_wallet_keeps s :
  only_held_live s →
  live_timers (world (close_wallet s).2) = []
  ∧ only_held_live (close_wallet s).2.
Proof.
  intros Hs.
  assert (∀ i t, timers (world (close_wallet s).2) !! i = Some t →
                 t_stopped t = true) as Hall.
  { intros i t. unfold close_wallet. run_m.
    pose proof (held_stopped_none_live s i t Hs) as Hst.
    destruct (timer (self s)) as [h|]; simpl; exact Hst. }
  split; [by apply no_live_filter|].
  intros i t Hi Ht. rewrite (Hall i t Hi) in Ht. done.
Qed.

(** What [update_settings] does to the timers, in every case: the held
    timer is stopped, and at most one new timer is started and held. *)
Lemma update_settings_timers initial s :
  let stopped :=
    match timer (self s) with
    | Some h => alter stop h (timers (world s))
    | None => timers (world s)
    end in
  let s' := (update_settings initial s).2 in
  (timers (world s') = stopped ∧ timer (self s') = None)
  ∨ (∃ t, t_stopped t = false
          ∧ timers (world s') = stopped ++ [t]
          ∧ timer (self s') = Some (length stopped)).
Proof.
  unfold update_settings, stopped_set, call_repeatedly, setToolTip, setIcon.
  run_m.
  destruct (timer (self s)) as [h|]; run_m;
    (destruct initial; run_m; [left; by split|]);
    (destruct (wallet (self s)); run_m; [|left; by split]);
    (destruct (truthy (config_get (config (self s))
                "autoexport_interval_seconds" (PInt 0))) eqn:Hi;
     run_m; [|left; by split]);
    right; eexists {| t_interval := _; t_stopped := false |};
    unfold bind, get, modify, ret, raise; simpl;
    (destruct (truthy (auto_export_enabled _)); simpl);
    (destruct (status_button (self s)); simpl); by repeat split.
Qed.

(** [update_settings] keeps the invariant, and so at most one live timer. *)
Lemma update_settings_keeps initial s :
  only_held_live s → only_held_live (update_settings initial s).2.
Proof.
  intros Hs. pose proof (held_stopped_none_live s) as Hst.
  destruct (update_settings_timers initial s) as [[Ht Hh] | (t & Hl & Ht & Hh)];
    intros i u Hi Hu; rewrite Ht in Hi.
  - rewrite (Hst i u Hs Hi) in Hu. done.
  - rewrite Hh. destruct (decide (i < length
        match timer (self s) with
        | Some h => alter stop h (timers (world s))
        | None => timers (world s)
        end)) as [Hlt|Hge].
    + rewrite lookup_app_l in Hi by done.
      rewrite (Hst i u Hs Hi) in Hu. done.
    + rewrite lookup_app_r in Hi by lia.
      apply list_lookup_singleton_Some in Hi as [Hi _]. f_equal. lia.
Qed.

(** C5: with [autoexport_interval_seconds] absent from the configuration or
    equal to 0, a settings update (initial or not) starts no timer thread
    and leaves the plugin without a timer, and a wallet load after it starts
    none either: the world is untouched and the plugin stays idle. *)
Theorem no_timer_when_interval_unset (s : State) (initial : bool)
    (w : option Wallet) (win : nat) :
  config (self s) !! "autoexport_interval_seconds" = None
  ∨ config (self s) !! "autoexport_interval_seconds" = Some (PInt 0) →
  ∃ s1 s2,
    update_settings initial s = (inr tt, s1)
    ∧ load_wallet w win s1 = (inr tt, s2)
    ∧ timer (self s1) = None
    ∧ length (timers (world s1)) = length (timers (world s))
    ∧ timer (self s2) = None
    ∧ world s2 = world s1
    ∧ length (live_timers (world s2)) ≤ length (live_timers (world s)).
Proof.
  intros Hc.
  assert (truthy (config_get (config (self s))
                    "autoexport_interval_seconds" (PInt 0)) = false) as Hi.
  { unfold config_get. by destruct Hc as [-> | ->]. }
  destruct (update_settings_idle initial s Hi)
    as (s1 & Hrun & Ht & Hf & Hlen & Hlive).
  exists s1. eexists. split; [exact Hrun|].
  rewrite load_wallet_idle by (by rewrite Hf). split; [reflexivity|].
  simpl. by rewrite Ht.
Qed.

(** C4, at the failing input: with an interval of 5 seconds configured, two
    wallet loads in a row leave two timer threads running; the plugin holds
    the handle of the second one only, so the first can never be stopped. *)
Theorem load_wallet_twice_two_live_timers (wd : World) (w1 w2 : Wallet) :
  let c : gmap string pyval := {[ "autoexport_interval_seconds" := PInt 5 ]} in
  let s := run (initial_state c wd)
               [LoadWallet (Some w1) 0; LoadWallet (Some w2) 1] in
  reachable s
  ∧ live_timers (world s) =
      [ {| t_interval := PInt 5; t_stopped := false |};
        {| t_interval := PInt 5; t_stopped := false |} ]
  ∧ timer (self s) = Some 1.
Proof.
  intros c s. split; [by exists c, wd, [LoadWallet (Some w1) 0; LoadWallet (Some w2) 1]|].
  split; reflexivity.
Qed.

(** C3, at the failing input: auto-export is active (interval 5, local sink
    on, status shown as connected); the interval is then set to 0 and the
    settings are read again.  The timer is cancelled, the enabled condition
    is false, and the status button still shows the connected icon. *)
Theorem update_settings_leaves_status_stale (wd : World) (w : Wallet) :
  let c : gmap string pyval :=
    {[ "autoexport_interval_seconds" := PInt 5;
       "autoexport_need_export_to_local" := PBool true ]} in
  let s1 := run (initial_state c wd) [CreateStatusBar; LoadWallet (Some w) 0] in
  let s2 := ((set_key "autoexport_interval_seconds" (PInt 0) ;;
              update_settings false) s1).2 in
  icon <$> status_button (self s1) = Some status_connected
  ∧ timer (self s2) = None
  ∧ live_timers (world s2) = []
  ∧ truthy (autoexport_interval_seconds (self s2))
    && truthy (auto_export_enabled (self s2)) = false
  ∧ icon <$> status_button (self s2) = Some status_connected.
Proof. intros c s1 s2. repeat split; reflexivity. Qed.

End lifecycle.

(** ** The formatter *)

Section formatter.
Context `{Host}.

Lemma fold_append_rows w items acc :
  fold_left (λ lines item, lines ++ [exported_row w item]) items acc
  = acc ++ map (exported_row w) items.
Proof.
  revert acc. induction items as [|i items IH]; intros acc; simpl.
  - by rewrite app_nil_r.
  - rewrite IH. by rewrite <- app_assoc.
Qed.

Lemma get_exported_data_run s w :
  wallet (self s) = Some w →
  get_exported_data s =
  (inr (exported_table w),
   {| self := self s;
      world := with_history_reads (S (history_reads (world s))) (world s) |}).
Proof.
  intros Hw. unfold get_exported_data. run_m. rewrite Hw. run_m.
  by rewrite fold_append_rows.
Qed.

Lemma get_exported_data_no_wallet s :
  wallet (self s) = None →
  ∃ e, get_exported_data s = (inl e, s).
Proof.
  intros Hw. unfold get_exported_data. run_m. rewrite Hw. by eexists.
Qed.

Lemma resolved_not_None v : resolved v → v ≠ PNone.
Proof. by intros [[t ->] | [n ->]]. Qed.

Lemma exported_row_resolved w item : Forall resolved (exported_row w item).
Proof.
  unfold exported_row.
  repeat (constructor; [unfold resolved; eauto|]). constructor.
Qed.

(** C2: on a plugin with a wallet, whatever its history (hash empty or not,
    value and timestamp present or [None], any height), [get_exported_data]
    returns without raising; the table has one row per item plus the header,
    every row has five cells, and every cell is a string or an integer,
    never [None]. *)
Theorem get_exported_data_total (s : State) (w : Wallet) :
  wallet (self s) = Some w →
  ∃ lines s',
    get_exported_data s = (inr lines, s')
    ∧ length lines = S (length (get_history w))
    ∧ Forall (λ row, length row = 5 ∧ Forall resolved row
                     ∧ Forall (λ v, v ≠ PNone) row) lines.
Proof.
  intros Hw. rewrite (get_exported_data_run s w Hw).
  eexists _, _. split; [reflexivity|]. split.
  - unfold exported_table. simpl. by rewrite length_map.
  - unfold exported_table. constructor.
    + split; [reflexivity|]. split.
      * unfold header.
        repeat (constructor; [unfold resolved; eauto|]). constructor.
      * unfold header. repeat (constructor; [discriminate|]). constructor.
    + apply Forall_map, Forall_forall. intros item _. simpl.
      split; [reflexivity|]. split; [apply exported_row_resolved|].
      eapply Forall_impl; [apply exported_row_resolved|].
      intros v. apply resolved_not_None.
Qed.

End formatter.

(** ** The sinks *)

Create HintDb keeps.

Lemma keeps_ret {A} (a : A) : keeps_self (ret a).
Proof. by intros s. Qed.

Lemma keeps_raise {A} e : keeps_self (@raise A e).
Proof. by intros s. Qed.

Lemma keeps_get : keeps_self get.
Proof. by intros s. Qed.

Lemma keeps_set_world f : keeps_self (set_world f).
Proof. by intros s. Qed.

Lemma keeps_bind {A B} (m : M A) (k : A → M B) :
  keeps_self m → (∀ a, keeps_self (k a)) → keeps_self (bind m k).
Proof.
  intros Hm Hk s. unfold bind. specialize (Hm s).
  destruct (m s) as [[e|a] s']; simpl in *; [done|].
  by rewrite Hk.
Qed.

Lemma keeps_try body handler :
  keeps_self body → (∀ e, keeps_self (handler e)) →
  keeps_self (try_except body handler).
Proof.
  intros Hm Hk s. unfold try_except. specialize (Hm s).
  destruct (body s) as [[e|a] s']; simpl in *; [|done].
  by rewrite Hk.
Qed.

Lemma keeps_for_each {A} (xs : list A) body :
  (∀ x, keeps_self (body x)) → keeps_self (for_each xs body).
Proof.
  intros Hb. induction xs as [|x xs IH]; simpl.
  - apply keeps_ret.
  - apply keeps_bind; [apply Hb | by intros _].
Qed.

Lemma keeps_lift {A} (r : exn + A) : keeps_self (lift r).
Proof. destruct r; [apply keeps_raise | apply keeps_ret]. Qed.

Lemma keeps_if {A} (b : bool) (m1 m2 : M A) :
  keeps_self m1 → keeps_self m2 → keeps_self (if b then m1 else m2).
Proof. by destruct b. Qed.

#[local] Hint Resolve keeps_ret keeps_raise keeps_get keeps_set_world
  keeps_lift : keeps.
#[local] Hint Extern 2 (keeps_self (bind _ _)) =>
  apply keeps_bind; [|intros ?] : keeps.
#[local] Hint Extern 2 (keeps_self (try_except _ _)) =>
  apply keeps_try; [|intros ?] : keeps.
#[local] Hint Extern 2 (keeps_self (for_each _ _)) =>
  apply keeps_for_each; intros ? : keeps.
#[local] Hint Extern 2 (keeps_self (if _ then _ else _)) =>
  apply keeps_if : keeps.
#[local] Hint Extern 3 (keeps_self (match ?x with _ => _ end)) =>
  destruct x : keeps.

Lemma keeps_print_error msg : keeps_self (print_error msg).
Proof. by intros s. Qed.

Lemma keeps_open_w path : keeps_self (open_w path).
Proof. unfold open_w. auto 10 with keeps. Qed.

Lemma keeps_file_write path text : keeps_self (file_write path text).
Proof. unfold file_write. auto 10 with keeps. Qed.

Lemma keeps_ftp_do c : keeps_self (ftp_do c).
Proof. unfold ftp_do. auto 10 with keeps. Qed.

Lemma keeps_write_rows lines acc : keeps_self (write_rows acc lines).
Proof.
  revert acc. induction lines as [|l lines IH]; intros acc; simpl;
    auto 10 with keeps.
Qed.

#[local] Hint Resolve keeps_print_error keeps_open_w keeps_file_write
  keeps_ftp_do keeps_write_rows : keeps.

Lemma keeps_write_csv_file path lines : keeps_self (write_csv_file path lines).
Proof. unfold write_csv_file. auto 10 with keeps. Qed.

Lemma keeps_csv_buffer lines : keeps_self (csv_buffer lines).
Proof. unfold csv_buffer, encode_utf8. auto 10 with keeps. Qed.

#[local] Hint Resolve keeps_write_csv_file keeps_csv_buffer : keeps.

Section sinks.
Context `{Host}.

Lemma keeps_get_exported_data : keeps_self get_exported_data.
Proof. unfold get_exported_data. auto 10 with keeps. Qed.

Lemma keeps_py_int v : keeps_self (py_int v).
Proof. destruct v; simpl; auto 10 with keeps. Qed.

#[local] Hint Resolve keeps_get_exported_data keeps_py_int : keeps.

Lemma keeps_export_csv_local : keeps_self export_csv_local.
Proof.
  unfold export_csv_local, export_csv_local_try. auto 20 with keeps.
Qed.

Lemma keeps_export_csv_ftp : keeps_self export_csv_ftp.
Proof.
  unfold export_csv_ftp, export_csv_ftp_try. auto 20 with keeps.
Qed.

(** A sink is a [try] block whose handler logs: it never raises. *)
Lemma try_logged_returns body s :
  (try_except body (λ e, print_error (exn_str e)) s).1 = inr tt.
Proof.
  unfold try_except. destruct (body s) as [[e|[]] s']; reflexivity.
Qed.

Lemma try_logged_failure body s e s' :
  body s = (inl e, s') →
  try_except body (λ e, print_error (exn_str e)) s
  = (inr tt, logged (exn_str e) s').
Proof. unfold try_except. by intros ->. Qed.

Lemma export_csv_local_returns s :
  ∃ s', export_csv_local s = (inr tt, s') ∧ self s' = self s.
Proof.
  pose proof (try_logged_returns export_csv_local_try s) as Hr.
  pose proof (keeps_export_csv_local s) as Hk.
  fold export_csv_local in Hr.
  destruct (export_csv_local s) as [r s']; simpl in *; subst. eauto.
Qed.

Lemma export_csv_ftp_returns s :
  ∃ s', export_csv_ftp s = (inr tt, s') ∧ self s' = self s.
Proof.
  pose proof (try_logged_returns export_csv_ftp_try s) as Hr.
  pose proof (keeps_export_csv_ftp s) as Hk.
  fold export_csv_ftp in Hr.
  destruct (export_csv_ftp s) as [r s']; simpl in *; subst. eauto.
Qed.

(** The callback of the timer never raises. *)
Lemma export_csv_returns s : (export_csv s).1 = inr tt.
Proof.
  unfold export_csv. run_m.
  destruct (truthy (autoexport_need_export_to_local (self s))).
  - destruct (export_csv_local_returns s) as (s1 & Hl & Hs).
    rewrite (bind_run _ _ _ _ _ Hl). run_m.
    destruct (truthy (autoexport_need_export_to_ftp (self s1))).
    + destruct (export_csv_ftp_returns s1) as (s2 & -> & _). done.
    + done.
  - run_m. destruct (truthy (autoexport_need_export_to_ftp (self s))).
    + destruct (export_csv_ftp_returns s) as (s2 & -> & _). done.
    + done.
Qed.

(** C6: when the host, the port, the user or the password held by the plugin
    is empty or missing (false as a Python value), [export_csv_ftp] returns
    at once: nothing is sent to any server, the wallet is not read, nothing
    is logged and nothing is raised; the state is the one it started in. *)
Theorem export_csv_ftp_noop (s : State) :
  truthy (autoexport_ftp_host (self s)) = false
  ∨ truthy (autoexport_ftp_port (self s)) = false
  ∨ truthy (autoexport_ftp_user (self s)) = false
  ∨ truthy (autoexport_ftp_password (self s)) = false →
  export_csv_ftp s = (inr tt, s)
  ∧ ftp_sent (world (export_csv_ftp s).2) = ftp_sent (world s)
  ∧ history_reads (world (export_csv_ftp s).2) = history_reads (world s)
  ∧ errors (world (export_csv_ftp s).2) = errors (world s).
Proof.
  intros Hm.
  assert (export_csv_ftp s = (inr tt, s)) as ->; [|done].
  unfold export_csv_ftp, try_except, export_csv_ftp_try. run_m.
  destruct (truthy (autoexport_ftp_host (self s))) eqn:Hh; simpl; [|done].
  destruct (truthy (autoexport_ftp_port (self s))) eqn:Hp; simpl; [|done].
  destruct (truthy (autoexport_ftp_user (self s))) eqn:Hu; simpl; [|done].
  destruct (truthy (autoexport_ftp_password (self s))) eqn:Hw; simpl; [|done].
  destruct Hm as [?|[?|[?|?]]]; discriminate.
Qed.

(** C7: with both sinks enabled, [export_csv] runs the local sink, which
    never raises (a failure inside its [try] block is logged by its handler
    and goes no further), and then runs the FTP sink on the state that the
    local sink left, whether the local sink failed or not. *)
Theorem export_csv_attempts_both_sinks (s : State) :
  truthy (autoexport_need_export_to_local (self s)) = true →
  truthy (autoexport_need_export_to_ftp (self s)) = true →
  ∃ s1,
    export_csv_local s = (inr tt, s1)
    ∧ export_csv s = export_csv_ftp s1
    ∧ (∀ e s', export_csv_local_try s = (inl e, s') →
               s1 = logged (exn_str e) s').
Proof.
  intros Hl Hf. destruct (export_csv_local_returns s) as (s1 & Hr & Hs).
  exists s1. split; [done|]. split.
  - unfold export_csv. run_m. rewrite Hl.
    rewrite (bind_run _ _ _ _ _ Hr). run_m. by rewrite Hs, Hf.
  - intros e s' He. unfold export_csv_local in Hr.
    rewrite (try_logged_failure _ _ _ _ He) in Hr. congruence.
Qed.

End sinks.

(** ** Writing the table: file and buffer *)

Lemma encode_app enc (a b : str) :
  encode enc (a ++ b) =
  match encode enc a, encode enc b with
  | Some x, Some y => Some (x ++ y)
  | _, _ => None
  end.
Proof.
  induction a as [|c a IH]; simpl.
  - by destruct (encode enc b).
  - rewrite IH. destruct (encode_char enc c), (encode enc a), (encode enc b);
      simpl; try done. by rewrite app_assoc.
Qed.

Lemma translate_newlines_app nl (a b : str) :
  translate_newlines nl (a ++ b)
  = translate_newlines nl a ++ translate_newlines nl b.
Proof. destruct nl; simpl; [done|]. apply bind_app. Qed.

Lemma translate_newlines_nil nl : translate_newlines nl [] = [].
Proof. by destruct nl. Qed.

Lemma put_file_twice path a b s :
  put_file path b (put_file path a s) = put_file path b s.
Proof. unfold put_file, with_files. simpl. by rewrite insert_insert_eq. Qed.

Lemma open_w_run path s :
  path ∉ unwritable (world s) →
  open_w path s = (inr tt, put_file path [] s).
Proof. intros Hp. unfold open_w. run_m. by rewrite decide_False. Qed.

Lemma open_w_denied path s :
  path ∈ unwritable (world s) → ∃ e, open_w path s = (inl e, s).
Proof. intros Hp. unfold open_w. run_m. rewrite decide_True by done. eauto. Qed.

Lemma file_write_run path acc text s :
  file_write path text (put_file path acc s) =
  match encode (encoding (platform (world s)))
               (translate_newlines (linesep (platform (world s))) text) with
  | Some bs => (inr tt, put_file path (acc ++ bs) s)
  | None =>
      (inl (UnicodeEncodeError (lit "codec can't encode character")),
       put_file path acc s)
  end.
Proof.
  unfold file_write. run_m.
  destruct (encode _ _) as [bs|]; [|done].
  unfold set_world, modify, put_file, with_files. simpl.
  by rewrite lookup_insert_eq, insert_insert_eq.
Qed.

(** The text of the whole table, translated and encoded for the file. *)
Lemma write_loop_ok path s lines : ∀ acc t bs,
  csv_text lines = inr t →
  encode (encoding (platform (world s)))
         (translate_newlines (linesep (platform (world s))) t) = Some bs →
  for_each lines (λ line,
    text <- lift (writerow line) ;; file_write path text)
    (put_file path acc s)
  = (inr tt, put_file path (acc ++ bs) s).
Proof.
  induction lines as [|l lines IH]; intros acc t bs Ht Hb; simpl in *.
  - simplify_eq. rewrite translate_newlines_nil in Hb. simpl in Hb.
    simplify_eq. by rewrite app_nil_r.
  - destruct (writerow l) as [e|text]; [done|].
    destruct (csv_text lines) as [e|texts]; [done|]. simplify_eq.
    rewrite translate_newlines_app, encode_app in Hb.
    destruct (encode _ (translate_newlines _ text)) as [b1|] eqn:H1; [|done].
    destruct (encode _ (translate_newlines _ texts)) as [b2|] eqn:H2; [|done].
    simplify_eq. unfold bind at 1. unfold bind at 1. simpl.
    rewrite file_write_run, H1.
    rewrite (IH (acc ++ b1) texts b2); [|done..]. by rewrite app_assoc.
Qed.

Lemma write_loop_fails path s lines : ∀ acc,
  (∀ t, csv_text lines = inr t →
        encode (encoding (platform (world s)))
               (translate_newlines (linesep (platform (world s))) t) = None) →
  ∃ e s',
    for_each lines (λ line,
      text <- lift (writerow line) ;; file_write path text)
      (put_file path acc s)
    = (inl e, s').
Proof.
  induction lines as [|l lines IH]; intros acc Hf; simpl in *.
  - specialize (Hf [] eq_refl). by rewrite translate_newlines_nil in Hf.
  - destruct (writerow l) as [e|text]; [by eexists _, _|].
    unfold bind at 1. unfold bind at 1. simpl. rewrite file_write_run.
    destruct (encode _ (translate_newlines _ text)) as [b1|] eqn:H1;
      [|by eexists _, _].
    apply IH. intros t Ht. rewrite Ht in Hf.
    specialize (Hf _ eq_refl).
    rewrite translate_newlines_app, encode_app, H1 in Hf.
    by destruct (encode _ (translate_newlines _ t)).
Qed.

Lemma write_csv_file_ok path s lines t bs :
  path ∉ unwritable (world s) →
  csv_text lines = inr t →
  encode (encoding (platform (world s)))
         (translate_newlines (linesep (platform (world s))) t) = Some bs →
  write_csv_file path lines s = (inr tt, put_file path bs s).
Proof.
  intros Hp Ht Hb. unfold write_csv_file.
  rewrite (bind_run _ _ _ _ _ (open_w_run path s Hp)).
  by rewrite (write_loop_ok path s lines [] t bs).
Qed.

Lemma write_csv_file_fails path s lines :
  path ∉ unwritable (world s) →
  (∀ t, csv_text lines = inr t →
        encode (encoding (platform (world s)))
               (translate_newlines (linesep (platform (world s))) t) = None) →
  ∃ e s', write_csv_file path lines s = (inl e, s').
Proof.
  intros Hp Hf. unfold write_csv_file.
  rewrite (bind_run _ _ _ _ _ (open_w_run path s Hp)).
  by apply write_loop_fails.
Qed.

Lemma write_rows_run lines : ∀ acc s,
  write_rows acc lines s =
  (match csv_text lines with
   | inl e => inl e
   | inr t => inr (acc ++ t)
   end, s).
Proof.
  induction lines as [|l lines IH]; intros acc s; simpl.
  - by rewrite app_nil_r.
  - destruct (writerow l) as [e|text]; [done|].
    unfold bind. simpl. rewrite IH.
    destruct (csv_text lines); [done|]. by rewrite app_assoc.
Qed.

Lemma csv_buffer_run lines s :
  csv_buffer lines s =
  (match csv_text lines with
   | inl e => inl e
   | inr t =>
       match encode UTF8 t with
       | Some b => inr b
       | None => inl (UnicodeEncodeError
                        (lit "'utf-8' codec can't encode character"))
       end
   end, s).
Proof.
  unfold csv_buffer, bind. rewrite write_rows_run.
  destruct (csv_text lines) as [e|t]; [done|]. simpl.
  unfold encode_utf8. by destruct (encode UTF8 t).
Qed.

(** C8, amended: where text files are written in UTF-8 with a line feed as
    line separator, the buffer that the FTP sink builds for a table and the
    content of the file that the local sink writes for it are the same
    bytes; the one exists exactly when the other is written in full. *)
Theorem ftp_buffer_is_local_file (s : State) (path : str)
    (lines : list (list pyval)) (f : bytes) :
  linesep (platform (world s)) = LF →
  encoding (platform (world s)) = UTF8 →
  path ∉ unwritable (world s) →
  (csv_buffer lines s).1 = inr f
  ↔ (write_csv_file path lines s).1 = inr tt
    ∧ files (world (write_csv_file path lines s).2) !! path = Some f.
Proof.
  intros Hnl Henc Hp. rewrite csv_buffer_run. simpl.
  destruct (csv_text lines) as [e|t] eqn:Ht.
  - destruct (write_csv_file_fails path s lines Hp) as (e' & s' & ->).
    { intros t. rewrite Ht. done. }
    simpl. split; [done|]. by intros [? _].
  - destruct (encode UTF8 t) as [b|] eqn:Hb.
    + rewrite (write_csv_file_ok path s lines t b); [| done..|].
      * simpl. rewrite lookup_insert_eq.
        split; [by intros [= ->] | by intros [_ [= ->]]].
      * by rewrite Hnl, Henc.
    + destruct (write_csv_file_fails path s lines Hp) as (e' & s' & ->).
      { intros t'. rewrite Ht, Hnl, Henc. intros [= <-]. done. }
      simpl. split; [done|]. by intros [? _].
Qed.

(** C8, as stated, fails where the line separator of text files is a
    carriage return and a line feed: for the table of the single cell [a]
    the FTP buffer is [a\n] and the local file is [a\r\n]. *)
Lemma ftp_buffer_differs_on_crlf_platform :
  let s := {| self := Sample.host_free_plugin;
              world := Sample.empty_world Sample.windows |} in
  let lines := [[PStr (lit "a")]] in
  let path := lit "/tmp/out/x.csv" in
  (csv_buffer lines s).1 = inr [97; 10]%N
  ∧ (write_csv_file path lines s).1 = inr tt
  ∧ files (world (write_csv_file path lines s).2) !! path
    = Some [97; 13; 10]%N
  ∧ files (world (write_csv_file path lines s).2) !! path
    ≠ Some [97; 10]%N.
Proof. repeat split; vm_compute; done. Qed.

Section local_sink.
Context `{Host}.

(** C10, amended: the local path is a non-empty string, a wallet is loaded,
    and a file with the name generated for this second exists already, with
    any content.  If the file can be opened for writing and the text of the
    table can be encoded on the platform, then [export_csv_local] returns
    normally, logs nothing, and the file afterwards holds the CSV of the
    current table and nothing else. *)
Theorem export_csv_local_overwrites (s : State) (d : str) (w : Wallet)
    (old : bytes) (t : str) (bs : bytes) :
  let path := os_path_join d (timestamp_filename s) in
  autoexport_local_path (self s) = PStr d →
  d ≠ [] →
  wallet (self s) = Some w →
  files (world s) !! path = Some old →
  path ∉ unwritable (world s) →
  csv_text (exported_table w) = inr t →
  encode (encoding (platform (world s)))
         (translate_newlines (linesep (platform (world s))) t) = Some bs →
  ∃ s',
    export_csv_local s = (inr tt, s')
    ∧ files (world s') !! path = Some bs
    ∧ errors (world s') = errors (world s).
Proof.
  intros path Hd Hne Hw Hold Hp Ht Hb.
  unfold export_csv_local, try_except, export_csv_local_try.
  rewrite bind_get, Hd. destruct d as [|c d]; [done|]. simpl.
  rewrite bind_ret.
  rewrite (bind_run _ _ _ _ _ (get_exported_data_run s w Hw)).
  erewrite write_csv_file_ok; [| done | exact Ht | exact Hb].
  eexists. split; [reflexivity|]. simpl. by rewrite lookup_insert_eq.
Qed.

End local_sink.

(** C10, as stated, fails where the table cannot be encoded or the file
    cannot be opened.  With a file of the generated name present: on a
    Latin-1 platform a wallet whose second label holds a Greek capital
    omega leaves the file with the header and the first row only, although
    the table has a CSV text, which Latin-1 cannot encode; and a file that
    cannot be opened keeps its old content.  Both times one error is
    logged and [export_csv_local] returns normally. *)
Lemma export_csv_local_cuts_or_keeps_old_file :
  let s := Sample.greek in
  let s' := (export_csv_local s).2 in
  let r := Sample.active Sample.readonly_world in
  let r' := (export_csv_local r).2 in
  (files (world s) !! Sample.csv_path = Some (lit "old export")
   ∧ (export_csv_local s).1 = inr tt
   ∧ length (exported_table Sample.greek_wallet) = 3
   ∧ (∃ t, csv_text (exported_table Sample.greek_wallet) = inr t
           ∧ encode Latin1 t = None)
   ∧ files (world s') !! Sample.csv_path
     = encode Latin1
         (header_line ++ lit "abc123,rent,3,5000,1690000000" ++ [10%N])
   ∧ length (errors (world s')) = 1)
  ∧ (files (world r) !! Sample.csv_path = Some (lit "old export")
     ∧ (export_csv_local r).1 = inr tt
     ∧ files (world r') !! Sample.csv_path = Some (lit "old export")
     ∧ length (errors (world r')) = 1).
Proof.
  split.
  - split; [vm_compute; reflexivity|]. split; [vm_compute; reflexivity|].
    split; [reflexivity|]. split.
    + exists (match csv_text (exported_table Sample.greek_wallet) with
              | inr t => t | inl _ => [] end).
      split; vm_compute; reflexivity.
    + split; vm_compute; reflexivity.
  - repeat split; vm_compute; reflexivity.
Qed.

(** ** The loop of the timer thread *)

(** C1, amended: when an invocation of the callback raises, the loop does not
    catch the exception: the loop ends with it, and the callback is not
    invoked again, however many intervals would follow. *)
Theorem loop_ends_at_exception {St} (func : St → (exn + unit) * St)
    (waits : list bool) (s s' : St) (e : exn) (calls : nat) :
  func s = (inl e, s') →
  loop func (false :: waits) s calls = (Died e, s', S calls).
Proof. intros Hf. simpl. by rewrite Hf. Qed.

(** A callback that never raises is invoked at every interval, for as long as
    the event is not set. *)
Lemma loop_goes_on {St} (func : St → (exn + unit) * St) (k : nat) :
  (∀ s, (func s).1 = inr tt) →
  ∀ s calls, ∃ s',
    loop func (replicate k false) s calls = (Waiting, s', calls + k).
Proof.
  intros Hf. induction k as [|k IH]; intros s calls; simpl.
  - exists s. by rewrite Nat.add_0_r.
  - specialize (Hf s). destruct (func s) as [[e|[]] s1]; simpl in Hf; [done|].
    destruct (IH s1 (S calls)) as [s' ->]. exists s'.
    by rewrite Nat.add_succ_r.
Qed.

(** The callback that the plugin gives to its timers is of that kind. *)
Lemma export_csv_loop_goes_on `{Host} (k : nat) (s : State) :
  ∃ s', loop export_csv (replicate k false) s 0 = (Waiting, s', k).
Proof. apply (loop_goes_on export_csv k export_csv_returns s 0). Qed.

(** C1, as stated, fails: a callback that raises is invoked once, and the
    loop is over although two more intervals go by. *)
Lemma loop_dies_with_raising_callback :
  let func := λ n : nat, (inl (ValueError (lit "boom")), n) in
  loop func [false; false; false] 0 0 = (Died (ValueError (lit "boom")), 0, 1)
  ∧ ¬ ∃ s', loop func [false; false; false] 0 0 = (Waiting, s', 3).
Proof. split; [reflexivity|]. by intros [s' Hs]. Qed.

(** ** Reading the file back *)

Local Open Scope N_scope.

Lemma parse_chars_snoc r0 cur c :
  parse_chars r0 (cur ++ [c]) =
  match parse_chars r0 cur with
  | inl e => inl e
  | inr r =>
      if c =? 0 then inl (CsvError (lit "line contains NULL byte"))
      else parse_process_char r c
  end.
Proof.
  revert r0. induction cur as [|d cur IH]; intros r0; simpl.
  - destruct (c =? 0); [done|]. by destruct (parse_process_char r0 c).
  - destruct (d =? 0); [done|].
    destruct (parse_process_char r0 d) as [e|r']; [done|]. apply IH.
Qed.

Lemma reads_char r r' c text rows :
  c ≠ 0 → c ≠ 10 → c ≠ 13 →
  parse_process_char r c = inr r' →
  reads_as r' text rows → reads_as r (c :: text) rows.
Proof.
  intros H0 H10 H13 Hstep Hr r0 cur Hcur. simpl.
  rewrite (proj2 (N.eqb_neq c 10)), (proj2 (N.eqb_neq c 13)) by done.
  apply Hr. rewrite parse_chars_snoc, Hcur.
  by rewrite (proj2 (N.eqb_neq c 0)).
Qed.

Lemma reads_newline_inside r r1 r2 text rows :
  parse_process_char r 10 = inr r1 →
  parse_process_char r1 0 = inr r2 →
  state r2 ≠ START_RECORD →
  reads_as r2 text rows → reads_as r (10 :: text) rows.
Proof.
  intros H1 H2 Hst Hr r0 cur Hcur. simpl.
  unfold parse_line. rewrite parse_chars_snoc, Hcur. simpl. rewrite H1, H2.
  specialize (Hr r2 [] eq_refl).
  destruct (state r2); done.
Qed.

Lemma reads_newline_row r r1 r2 text rows :
  parse_process_char r 10 = inr r1 →
  parse_process_char r1 0 = inr r2 →
  state r2 = START_RECORD →
  reader_rows (lines_from [] text) parse_reset = inr rows →
  reads_as r (10 :: text) (fields r2 :: rows).
Proof.
  intros H1 H2 Hst Hr r0 cur Hcur. simpl.
  unfold parse_line. rewrite parse_chars_snoc, Hcur. simpl. rewrite H1, H2.
  by rewrite Hst, Hr.
Qed.

Lemma parse_add_char_ok st fs b c :
  N.of_nat (length b) < field_limit →
  parse_add_char {| state := st; fields := fs; field := b |} c
  = inr {| state := st; fields := fs; field := b ++ [c] |}.
Proof.
  intros Hl. unfold parse_add_char. simpl.
  by rewrite (proj2 (N.leb_gt _ _) Hl).
Qed.

(** Plain characters inside an unquoted field. *)
Lemma reads_plain fs text rows f : ∀ b,
  Forall (λ c, special c = false ∧ c ≠ 0 ∧ c ≠ 13) f →
  N.of_nat (length b + length f) ≤ field_limit →
  reads_as {| state := IN_FIELD; fields := fs; field := b ++ f |} text rows →
  reads_as {| state := IN_FIELD; fields := fs; field := b |} (f ++ text) rows.
Proof.
  induction f as [|c f IH]; intros b Hf Hl Hr; simpl.
  - by rewrite app_nil_r in Hr.
  - inversion_clear Hf as [|? ? [Hs [H0 H13]] Hf']. simpl in Hl.
    unfold special, lineterminator in Hs.
    apply orb_false_elim in Hs as [Hs Hnl].
    apply orb_false_elim in Hs as [Hq Hd].
    apply bool_decide_eq_false in Hnl.
    assert (c ≠ 10) as H10 by (intros ->; apply Hnl; set_solver).
    apply N.eqb_neq in Hq, Hd.
    apply (reads_char _ {| state := IN_FIELD; fields := fs;
                           field := b ++ [c] |}); try done.
    + unfold parse_process_char, is_newline. simpl.
      rewrite (proj2 (N.eqb_neq c 10)), (proj2 (N.eqb_neq c 13)),
        (proj2 (N.eqb_neq c 0)), (proj2 (N.eqb_neq c delimiter)) by done.
      simpl. apply parse_add_char_ok. lia.
    + apply IH; [done| rewrite length_app; simpl; lia |].
      by rewrite <- app_assoc.
Qed.

(** The data of a quoted field. *)
Lemma reads_quoted fs text rows f : ∀ b,
  Forall (λ c, c ≠ 0 ∧ c ≠ 13) f →
  N.of_nat (length b + length f) ≤ field_limit →
  reads_as {| state := IN_QUOTED_FIELD; fields := fs; field := b ++ f |}
           text rows →
  reads_as {| state := IN_QUOTED_FIELD; fields := fs; field := b |}
           (escape f ++ text) rows.
Proof.
  induction f as [|c f IH]; intros b Hf Hl Hr.
  - by rewrite app_nil_r in Hr.
  - inversion_clear Hf as [|? ? [H0 H13] Hf']. simpl in Hl.
    assert (reads_as
              {| state := IN_QUOTED_FIELD; fields := fs; field := b ++ [c] |}
              (escape f ++ text) rows) as Hnext.
    { apply IH; [done| rewrite length_app; simpl; lia |].
      by rewrite <- app_assoc. }
    assert (N.of_nat (length b) < field_limit) as Hb by lia.
    change (escape (c :: f)) with
      ((if c =? quotechar then [quotechar; quotechar] else [c]) ++ escape f).
    destruct (N.eqb_spec c quotechar) as [->|Hq].
    + simpl.
      apply (reads_char _ {| state := QUOTE_IN_QUOTED_FIELD; fields := fs;
                             field := b |}); try done.
      apply (reads_char _ {| state := IN_QUOTED_FIELD; fields := fs;
                             field := b ++ [quotechar] |}); try done.
      unfold parse_process_char. simpl.
      by rewrite (parse_add_char_ok _ _ _ _ Hb).
    + simpl. destruct (N.eq_dec c 10) as [->|H10].
      * apply (reads_newline_inside _
                 {| state := IN_QUOTED_FIELD; fields := fs;
                    field := b ++ [10] |}
                 {| state := IN_QUOTED_FIELD; fields := fs;
                    field := b ++ [10] |}); try done.
        unfold parse_process_char. simpl.
        by rewrite (parse_add_char_ok _ _ _ _ Hb).
      * apply (reads_char _ {| state := IN_QUOTED_FIELD; fields := fs;
                               field := b ++ [c] |}); try done.
        unfold parse_process_char. simpl.
        rewrite (proj2 (N.eqb_neq c 0)), (proj2 (N.eqb_neq c quotechar))
          by done.
        by apply parse_add_char_ok.
Qed.

Lemma escape_plain f :
  Forall (λ c, special c = false) f → escape f = f.
Proof.
  induction 1 as [|c f Hc _ IH]; [done|].
  change (escape (c :: f)) with
    ((if c =? quotechar then [quotechar; quotechar] else [c]) ++ escape f).
  rewrite IH. unfold special in Hc.
  apply orb_false_elim in Hc as [Hc _].
  apply orb_false_elim in Hc as [-> _]. done.
Qed.

Lemma needs_quotes_false f :
  needs_quotes f = false → Forall (λ c, special c = false) f.
Proof.
  unfold needs_quotes. induction f as [|c f IH]; simpl; [constructor|].
  intros [Hc Hf]%orb_false_elim. constructor; auto.
Qed.

Lemma readable_chars f : readable f → Forall (λ c, c ≠ 0 ∧ c ≠ 13) f.
Proof.
  intros (H0 & H13 & _). apply Forall_forall. intros c Hc.
  split; intros ->; done.
Qed.

(** The text of a field takes the reader from the start of the field to a
    state that has the field in hand. *)
Lemma reads_field st fs f :
  readable f → field_start st fs →
  ∃ r, after_field r fs f
       ∧ (r = parse_reset → st = parse_reset ∧ f = [])
       ∧ ∀ text rows, reads_as r text rows →
                      reads_as st (field_out f ++ text) rows.
Proof.
  intros Hf Hst. pose proof (readable_chars f Hf) as Hch.
  destruct Hf as (H0 & H13 & Hlen). unfold field_out.
  destruct (needs_quotes f) eqn:Hq.
  - exists {| state := QUOTE_IN_QUOTED_FIELD; fields := fs; field := f |}.
    split; [right; by left|]. split; [done|]. intros text rows Hr.
    rewrite <- !app_assoc. simpl.
    apply (reads_char _ {| state := IN_QUOTED_FIELD; fields := fs;
                           field := [] |}); try done.
    { by destruct Hst as [-> | [-> ->]]. }
    apply (reads_quoted fs _ rows f []); [done | simpl; lia |]. simpl.
    apply (reads_char _ {| state := QUOTE_IN_QUOTED_FIELD; fields := fs;
                           field := f |}); done.
  - rewrite (escape_plain f (needs_quotes_false f Hq)).
    destruct f as [|c f].
    + exists st. split.
      { destruct Hst as [-> | [-> ->]]; [right; right; by left|].
        by repeat right. }
      split; [done|]. by intros text rows Hr.
    + exists {| state := IN_FIELD; fields := fs; field := c :: f |}.
      split; [by left|]. split; [done|]. intros text rows Hr.
      pose proof (needs_quotes_false _ Hq) as Hpl.
      inversion_clear Hpl as [|? ? Hc Hpl'].
      inversion_clear Hch as [|? ? [Hc0 Hc13] Hch'].
      simpl in Hlen.
      pose proof Hc as Hc'. unfold special, lineterminator in Hc'.
      apply orb_false_elim in Hc' as [Hc' Hnl].
      apply orb_false_elim in Hc' as [Hcq Hcd].
      apply bool_decide_eq_false in Hnl.
      assert (c ≠ 10) as H10 by (intros ->; apply Hnl; set_solver).
      apply N.eqb_neq in Hcq, Hcd.
      simpl.
      apply (reads_char _ {| state := IN_FIELD; fields := fs;
                             field := [c] |}); try done.
      { assert (parse_start_field
                  {| state := START_FIELD; fields := fs; field := [] |} c
                = inr {| state := IN_FIELD; fields := fs; field := [c] |})
          as Hs.
        { unfold parse_start_field, is_newline.
          rewrite (proj2 (N.eqb_neq c 10)), (proj2 (N.eqb_neq c 13)),
            (proj2 (N.eqb_neq c 0)), (proj2 (N.eqb_neq c delimiter)),
            (proj2 (N.eqb_neq c quotechar)) by done.
          cbn [orb]. by rewrite parse_add_char_ok. }
        destruct Hst as [-> | [-> ->]]; unfold parse_process_char; simpl.
        - exact Hs.
        - unfold is_newline.
          rewrite (proj2 (N.eqb_neq c 10)), (proj2 (N.eqb_neq c 13)),
            (proj2 (N.eqb_neq c 0)) by done.
          exact Hs. }
      apply (reads_plain fs text rows f [c]); [|simpl; lia|done].
      apply Forall_forall. intros d Hd.
      rewrite Forall_forall in Hpl'. rewrite Forall_forall in Hch'.
      split; [by apply Hpl' | by apply Hch'].
Qed.

Lemma after_field_delimiter r fs f :
  after_field r fs f →
  parse_process_char r delimiter
  = inr {| state := START_FIELD; fields := fs ++ [f]; field := [] |}.
Proof. by intros [-> | [-> | [[-> ->] | (-> & -> & ->)]]]. Qed.

Lemma after_field_newline r fs f :
  after_field r fs f → r ≠ parse_reset →
  ∃ r1 r2,
    parse_process_char r 10 = inr r1
    ∧ parse_process_char r1 0 = inr r2
    ∧ state r2 = START_RECORD
    ∧ fields r2 = fs ++ [f].
Proof.
  intros [-> | [-> | [[-> ->] | (-> & -> & ->)]]] Hne; [| | |done];
    eexists _, _; repeat split.
Qed.

(** The fields of a row, one after the other, up to the end of the line. *)
Lemma reads_chain rest rows fs : ∀ st seen,
  fs ≠ [] →
  Forall readable fs →
  field_start st seen →
  (st = parse_reset → fs ≠ [[]]) →
  reader_rows (lines_from [] rest) parse_reset = inr rows →
  reads_as st (chain fs rest) ((seen ++ fs) :: rows).
Proof.
  induction fs as [|f fs IH]; intros st seen Hne Hfs Hst Hone Hrest; [done|].
  inversion_clear Hfs as [|? ? Hf Hfs'].
  destruct (reads_field st seen f Hf Hst) as (r & Haf & Hreset & Hr).
  destruct fs as [|g fs].
  - simpl. apply Hr.
    destruct (after_field_newline r seen f Haf) as (r1 & r2 & H1 & H2 & H3 & H4).
    { intros Heq. destruct (Hreset Heq) as [-> ->]. by apply Hone. }
    rewrite <- H4. by apply (reads_newline_row r r1 r2).
  - change (chain (f :: g :: fs) rest)
      with (field_out f ++ delimiter :: chain (g :: fs) rest).
    apply Hr.
    apply (reads_char _ {| state := START_FIELD; fields := seen ++ [f];
                           field := [] |}); try done.
    { by apply after_field_delimiter. }
    replace (seen ++ f :: g :: fs) with ((seen ++ [f]) ++ g :: fs)
      by (by rewrite <- app_assoc).
    apply IH; try done. by left.
Qed.

Lemma chain_row_out f fs rest :
  chain (f :: fs) rest = field_out f ++ tail_out fs ++ 10 :: rest.
Proof.
  revert f. induction fs as [|g fs IH]; intros f; [done|].
  change (chain (f :: g :: fs) rest)
    with (field_out f ++ delimiter :: chain (g :: fs) rest).
  rewrite IH. unfold tail_out. simpl. by rewrite <- app_assoc.
Qed.

Lemma field_out_nil f : field_out f = [] → f = [].
Proof.
  unfold field_out. destruct (needs_quotes f) eqn:Hq; [done|].
  by rewrite (escape_plain f (needs_quotes_false f Hq)).
Qed.

Lemma row_out_chain f fs rest :
  f :: fs ≠ [[]] → row_out (f :: fs) ++ rest = chain (f :: fs) rest.
Proof.
  intros Hne. rewrite chain_row_out. unfold row_out, lineterminator.
  destruct (field_out f ++ tail_out fs) as [|c t] eqn:Ht.
  - apply app_eq_nil in Ht as [Hf Ht]. apply field_out_nil in Hf as ->.
    destruct fs; [done|]. discriminate Ht.
  - rewrite <- Ht. by rewrite <- !app_assoc.
Qed.

(** One row of the file. *)
Lemma reads_row fs rest rows :
  Forall readable fs →
  reader_rows (lines_from [] rest) parse_reset = inr rows →
  reads_as parse_reset (row_out fs ++ rest) (fs :: rows).
Proof.
  intros Hfs Hrest. destruct fs as [|f fs].
  - by apply (reads_newline_row parse_reset
                (set_state EAT_CRNL parse_reset) parse_reset).
  - destruct (decide (f :: fs = [[]])) as [[= -> ->]|Hne].
    + change (row_out [[]] ++ rest) with (34 :: 34 :: 10 :: rest).
      apply (reads_char _ {| state := IN_QUOTED_FIELD; fields := [];
                             field := [] |}); try done.
      apply (reads_char _ {| state := QUOTE_IN_QUOTED_FIELD; fields := [];
                             field := [] |}); try done.
      by apply (reads_newline_row _
                  {| state := EAT_CRNL; fields := [[]]; field := [] |}
                  {| state := START_RECORD; fields := [[]]; field := [] |}).
    + rewrite row_out_chain by done.
      apply (reads_chain rest rows (f :: fs) parse_reset []); try done.
      by right.
Qed.

(** The whole file. *)
Lemma reads_table (table : list (list str)) :
  Forall (Forall readable) table →
  reader_rows (lines_from [] (concat (map row_out table))) parse_reset
  = inr table.
Proof.
  induction 1 as [|fs table Hfs _ IH]; [done|]. simpl.
  by apply (reads_row fs _ table Hfs IH parse_reset []).
Qed.

(** *** The writer, in closed form *)

Lemma join_append_data_ok f :
  join_append_data f = inr (escape f, needs_quotes f).
Proof.
  induction f as [|c f IH]; [done|].
  simpl. rewrite IH.
  change (escape (c :: f)) with
    ((if c =? quotechar then [quotechar; quotechar] else [c]) ++ escape f).
  change (needs_quotes (c :: f)) with (special c || needs_quotes f).
  unfold special. destruct (N.eqb_spec c quotechar) as [->|Hq]; [done|].
  simpl. by destruct ((c =? delimiter) || bool_decide (c ∈ lineterminator)).
Qed.

Lemma join_append_ok rec n f :
  join_append rec n f false
  = inr (rec ++ match n with O => [] | _ => [delimiter] end ++ field_out f).
Proof.
  unfold join_append. rewrite (join_append_data_ok f).
  unfold field_out. by rewrite orb_false_r.
Qed.

Lemma join_fields_ok row : ∀ rec n,
  join_fields rec (S n) row
  = inr (rec ++ tail_out (map field_text row), (S n + length row)%nat).
Proof.
  induction row as [|v row IH]; intros rec n; simpl.
  - by rewrite app_nil_r, Nat.add_0_r.
  - rewrite (join_append_ok rec (S n)). rewrite (IH _ (S n)).
    unfold tail_out. simpl. rewrite <- !app_assoc. simpl.
    by rewrite Nat.add_succ_r.
Qed.

(** The writer takes every row. *)
Lemma writerow_ok row :
  writerow row = inr (row_out (map field_text row)).
Proof.
  unfold writerow. destruct row as [|v row]; [done|]. simpl.
  rewrite (join_append_ok [] 0). simpl.
  rewrite (join_fields_ok row _ 0). unfold row_out.
  destruct (field_out (field_text v) ++ tail_out (map field_text row))
    as [|c t] eqn:Ht; [|done].
  apply app_eq_nil in Ht as [_ Ht].
  destruct row as [|v' row]; [|discriminate Ht].
  simpl. unfold join_append. simpl. done.
Qed.

Lemma csv_text_ok lines :
  csv_text lines = inr (concat (map row_out (map (map field_text) lines))).
Proof.
  induction lines as [|row lines IH]; [done|].
  simpl. by rewrite (writerow_ok row), IH.
Qed.
(** *** Encodings and newlines, there and back *)

Ltac decide_tests :=
  repeat match goal with
         | |- context [?a <? ?b] =>
             first [ rewrite (proj2 (N.ltb_lt a b)) by lia
                   | rewrite (proj2 (N.ltb_ge a b)) by lia ]
         | |- context [?a <=? ?b] =>
             first [ rewrite (proj2 (N.leb_le a b)) by lia
                   | rewrite (proj2 (N.leb_gt a b)) by lia ]
         end.

(** A number and its quotient and remainder by 64. *)
Lemma split64 c : ∃ q m, c / 0x40 = q ∧ c mod 0x40 = m ∧ c = 0x40 * q + m ∧ m < 0x40.
Proof.
  exists (c / 0x40), (c mod 0x40). repeat split.
  - by apply N.div_mod.
  - by apply N.mod_lt.
Qed.

Lemma utf8_decode_char c b rest :
  utf8_encode_char c = Some b →
  utf8_decode (b ++ rest) = cons c <$> utf8_decode rest.
Proof.
  unfold utf8_encode_char.
  destruct (N.ltb_spec c 0x80) as [H1|H1].
  { intros [= <-]. simpl app. cbn [utf8_decode]. by decide_tests. }
  destruct (N.ltb_spec c 0x800) as [H2|H2].
  { intros [= <-]. simpl app. cbn [utf8_decode]. unfold is_cont.
    destruct (split64 c) as (q & m & -> & -> & Hc & Hm).
    decide_tests. cbn [andb]. do 2 f_equal. lia. }
  destruct (N.ltb_spec c 0x10000) as [H3|H3].
  { destruct ((0xD800 <=? c) && (c <=? 0xDFFF)) eqn:Hs; [done|].
    intros [= <-]. simpl app. cbn [utf8_decode]. unfold is_cont.
    replace (c / 0x1000) with (c / 0x40 / 0x40) by (by rewrite N.Div0.div_div).
    destruct (split64 c) as (q & m & -> & -> & Hc & Hm).
    destruct (split64 q) as (q' & m' & -> & -> & Hq & Hm').
    assert ((0xE0 + q' - 0xE0) * 0x1000 + (0x80 + m' - 0x80) * 0x40
            + (0x80 + m - 0x80) = c) as -> by lia.
    rewrite Hs. decide_tests. cbn [andb negb]. done. }
  destruct (N.ltb_spec c 0x110000) as [H4|H4]; [|done].
  intros [= <-]. simpl app. cbn [utf8_decode]. unfold is_cont.
  replace (c / 0x40000) with (c / 0x40 / 0x40 / 0x40)
    by (by rewrite !N.Div0.div_div).
  replace (c / 0x1000) with (c / 0x40 / 0x40) by (by rewrite N.Div0.div_div).
  destruct (split64 c) as (q & m & -> & -> & Hc & Hm).
  destruct (split64 q) as (q' & m' & -> & -> & Hq & Hm').
  destruct (split64 q') as (q'' & m'' & -> & -> & Hq' & Hm'').
  assert ((0xF0 + q'' - 0xF0) * 0x40000 + (0x80 + m'' - 0x80) * 0x1000
          + (0x80 + m' - 0x80) * 0x40 + (0x80 + m - 0x80) = c) as -> by lia.
  decide_tests. cbn [andb]. done.
Qed.

Lemma decode_encode enc (t : str) (bs : bytes) :
  encode enc t = Some bs → decode enc bs = Some t.
Proof.
  revert bs. induction t as [|c t IH]; intros bs; simpl.
  - intros [= <-]. by destruct enc.
  - destruct (encode_char enc c) as [b|] eqn:Hc; [|done].
    destruct (encode enc t) as [bs'|]; [|done]. intros [= <-].
    specialize (IH bs' eq_refl). destruct enc; simpl in *.
    + by rewrite (utf8_decode_char c b bs' Hc), IH.
    + destruct (N.ltb_spec c 0x80); [|done]. simplify_eq. simpl.
      rewrite (proj2 (N.ltb_lt c 0x80)) by done. by rewrite IH.
    + destruct (N.ltb_spec c 0x100); [|done]. simplify_eq. simpl.
      rewrite (proj2 (N.ltb_lt c 0x100)) by done. by rewrite IH.
Qed.

Lemma encode_is_Some enc (t : str) :
  Forall (λ c, is_Some (encode_char enc c)) t → is_Some (encode enc t).
Proof.
  induction 1 as [|c t [b Hc] _ [bs IH]]; simpl; [by eexists|].
  rewrite Hc, IH. by eexists.
Qed.

Lemma encode_char_ascii enc c : c < 0x80 → is_Some (encode_char enc c).
Proof.
  intros Hc. destruct enc; simpl; unfold utf8_encode_char;
    rewrite ?(proj2 (N.ltb_lt c 0x80)), ?(proj2 (N.ltb_lt c 0x100)) by lia;
    by eexists.
Qed.

Lemma translate_newlines_Forall (P : N → Prop) nl (t : str) :
  P 13 → Forall P t → Forall P (translate_newlines nl t).
Proof.
  intros H13 Ht. destruct nl; simpl; [done|].
  induction Ht as [|c t Hc _ IH]; [constructor|].
  change ((c :: t) ≫= (λ c, if c =? 10 then [13; 10] else [c]))
    with ((if c =? 10 then [13; 10] else [c])
            ++ (t ≫= (λ c, if c =? 10 then [13; 10] else [c]))).
  destruct (N.eqb_spec c 10) as [->|_]; simpl; repeat constructor; done.
Qed.

(** Reading with newline translation undoes the translation of writing. *)
Lemma universal_newlines_id (t : str) :
  Forall (λ c, c ≠ 13) t → universal_newlines t = t.
Proof.
  induction 1 as [|c t Hc _ IH]; [done|]. simpl.
  rewrite (proj2 (N.eqb_neq c 13)) by done. by rewrite IH.
Qed.

Lemma universal_newlines_translate nl (t : str) :
  Forall (λ c, c ≠ 13) t →
  universal_newlines (translate_newlines nl t) = t.
Proof.
  intros Ht. destruct nl; simpl; [by apply universal_newlines_id|].
  induction Ht as [|c t Hc _ IH]; [done|].
  change ((c :: t) ≫= (λ c, if c =? 10 then [13; 10] else [c]))
    with ((if c =? 10 then [13; 10] else [c])
            ++ (t ≫= (λ c, if c =? 10 then [13; 10] else [c]))).
  destruct (N.eqb_spec c 10) as [->|H10]; simpl.
  - by rewrite IH.
  - rewrite (proj2 (N.eqb_neq c 13)) by done. by rewrite IH.
Qed.

(** *** What the text of a table is made of *)

Lemma escape_Forall (P : N → Prop) f :
  Forall P f → Forall P (escape f).
Proof.
  induction 1 as [|c f Hc _ IH]; [constructor|].
  change (escape (c :: f)) with
    ((if c =? quotechar then [quotechar; quotechar] else [c]) ++ escape f).
  destruct (N.eqb_spec c quotechar) as [->|_]; simpl; repeat constructor; done.
Qed.

Lemma field_out_Forall (P : N → Prop) f :
  P quotechar → Forall P f → Forall P (field_out f).
Proof.
  intros Hq Hf. unfold field_out. destruct (needs_quotes f).
  - apply Forall_app. split; [by repeat constructor|].
    apply Forall_app. split; [by apply escape_Forall | by repeat constructor].
  - by apply escape_Forall.
Qed.

Lemma tail_out_Forall (P : N → Prop) fs :
  P quotechar → P delimiter → Forall (Forall P) fs → Forall P (tail_out fs).
Proof.
  intros Hq Hd. induction 1 as [|f fs Hf _ IH]; [constructor|].
  change (tail_out (f :: fs)) with ((delimiter :: field_out f) ++ tail_out fs).
  apply Forall_app. split; [|done].
  constructor; [done|]. by apply field_out_Forall.
Qed.

Lemma row_out_Forall (P : N → Prop) fs :
  P quotechar → P delimiter → P 10 →
  Forall (Forall P) fs → Forall P (row_out fs).
Proof.
  intros Hq Hd Hn Hfs. unfold row_out, lineterminator.
  apply Forall_app. split; [|by repeat constructor].
  destruct fs as [|f fs]; [constructor|].
  inversion_clear Hfs as [|? ? Hf Hfs'].
  assert (Forall P (field_out f ++ tail_out fs)) as Hall.
  { apply Forall_app. split;
      [by apply field_out_Forall | by apply tail_out_Forall]. }
  destruct (field_out f ++ tail_out fs); [by repeat constructor | done].
Qed.

Lemma table_out_Forall (P : N → Prop) (table : list (list str)) :
  P quotechar → P delimiter → P 10 →
  Forall (Forall (Forall P)) table →
  Forall P (concat (map row_out table)).
Proof.
  intros Hq Hd Hn. induction 1 as [|fs table Hfs _ IH]; [constructor|].
  simpl. apply Forall_app. split; [by apply row_out_Forall | done].
Qed.
Local Close Scope N_scope.

(** *** From the table to the file and back *)

(** C9, amended: the local sink writes a table whose cells, as text, hold
    neither NUL nor carriage return, are no longer than the reader's field
    limit and can be encoded on the platform.  Reading the file back as text
    (with newline translation, or without it where the line separator is a
    line feed) through the csv reader gives the rows of the table, each cell
    as its text: a string as it is, [None] as the empty string, anything
    else through [str()]. *)
Theorem local_file_reads_back (s : State) (path : str)
    (table : list (list pyval)) (universal : bool) :
  path ∉ unwritable (world s) →
  Forall (Forall (round_trips (encoding (platform (world s))))) table →
  universal = true ∨ linesep (platform (world s)) = LF →
  ∃ s' content,
    write_csv_file path table s = (inr tt, s')
    ∧ files (world s') !! path = Some content
    ∧ csv_read_file (platform (world s)) universal content
      = inr (map (map field_text) table).
Proof.
  intros Hp Htable Hmode.
  set (enc := encoding (platform (world s))) in *.
  set (nl := linesep (platform (world s))) in *.
  set (cells := map (map field_text) table).
  set (text := concat (map row_out cells)).
  assert (Forall (Forall readable) cells) as Hread.
  { apply Forall_map. eapply Forall_impl; [exact Htable|].
    intros row Hrow. apply Forall_map. eapply Forall_impl; [exact Hrow|].
    by intros v [Hv _]. }
  assert (csv_text table = inr text) as Htext.
  { apply csv_text_ok. }
  assert (Forall (λ c, c ≠ 13%N) text) as H13.
  { apply table_out_Forall; [done..|].
    eapply Forall_impl; [exact Hread|]. intros row Hrow.
    eapply Forall_impl; [exact Hrow|]. intros f (_ & Hf & _).
    apply Forall_forall. by intros c Hc ->. }
  assert (Forall (λ c, is_Some (encode_char enc c)) text) as Henc.
  { apply table_out_Forall; [by apply encode_char_ascii..|].
    apply Forall_map. eapply Forall_impl; [exact Htable|].
    intros row Hrow. apply Forall_map. eapply Forall_impl; [exact Hrow|].
    by intros v [_ Hv]. }
  destruct (encode_is_Some enc (translate_newlines nl text)) as [bs Hbs].
  { apply translate_newlines_Forall; [by apply encode_char_ascii | done]. }
  exists (put_file path bs s), bs.
  split; [by apply (write_csv_file_ok path s table text bs)|].
  split; [simpl; by rewrite lookup_insert_eq|].
  unfold csv_read_file. fold enc. rewrite (decode_encode enc _ bs Hbs).
  unfold file_lines.
  assert ((if universal then universal_newlines (translate_newlines nl text)
           else translate_newlines nl text) = text) as ->.
  { destruct universal.
    - by apply universal_newlines_translate.
    - destruct Hmode as [|Hnl]; [done|]. by rewrite Hnl. }
  by apply reads_table.
Qed.

(** C9, as stated, fails: the table of one row with the integer 3 and the
    string [a\rb] is written as [3,a\rb\n]; read back, with newline
    translation or without, it is two rows, [3, a] and [b], not the row that
    was written, and its first cell is a string, not the integer. *)
Lemma local_file_does_not_read_back :
  let s := {| self := Sample.host_free_plugin;
              world := Sample.empty_world Sample.posix |} in
  let table := [[PInt 3; PStr (lit "a" ++ [13%N] ++ lit "b")]] in
  let written := write_csv_file Sample.csv_path table s in
  let content := default [] (files (world written.2) !! Sample.csv_path) in
  written.1 = inr tt
  ∧ content = [51; 44; 97; 13; 98; 10]%N
  ∧ csv_read_file Sample.posix true content
    = inr [[lit "3"; lit "a"]; [lit "b"]]
  ∧ csv_read_file Sample.posix false content
    = inr [[lit "3"; lit "a"]; [lit "b"]]
  ∧ csv_read_file Sample.posix true content
    ≠ inr (map (map field_text) table)
  ∧ ∀ rows, csv_read_file Sample.posix true content = inr rows →
            map (map PStr) rows ≠ table.
Proof.
  intros s table written content.
  assert (content = [51; 44; 97; 13; 98; 10]%N) as Hcontent
    by (vm_compute; reflexivity).
  split; [vm_compute; reflexivity|]. split; [exact Hcontent|].
  rewrite Hcontent.
  split; [vm_compute; reflexivity|]. split; [vm_compute; reflexivity|].
  split.
  - vm_compute. discriminate.
  - intros rows Hrows. vm_compute in Hrows. injection Hrows as <-.
    discriminate.
Qed.

(** * Further properties of the plugin *)

(** ** What a computation leaves alone *)

Lemma frame_ret {A X} (f : State → X) (a : A) : keeps f (ret a).
Proof. by intros s. Qed.

Lemma frame_raise {A X} (f : State → X) e : keeps f (@raise A e).
Proof. by intros s. Qed.

Lemma frame_get {X} (f : State → X) : keeps f get.
Proof. by intros s. Qed.

Lemma frame_modify {X} (f : State → X) g :
  (∀ s, f (g s) = f s) → keeps f (modify g).
Proof. intros Hg s. apply Hg. Qed.

Lemma frame_bind {A B X} (f : State → X) (m : M A) (k : A → M B) :
  keeps f m → (∀ a, keeps f (k a)) → keeps f (bind m k).
Proof.
  intros Hm Hk s. unfold bind. specialize (Hm s).
  destruct (m s) as [[e|a] s']; simpl in *; [done|].
  by rewrite Hk.
Qed.

Lemma frame_try {X} (f : State → X) body handler :
  keeps f body → (∀ e, keeps f (handler e)) →
  keeps f (try_except body handler).
Proof.
  intros Hm Hk s. unfold try_except. specialize (Hm s).
  destruct (body s) as [[e|a] s']; simpl in *; [|done].
  by rewrite Hk.
Qed.

Lemma frame_for_each {A X} (f : State → X) (xs : list A) body :
  (∀ x, keeps f (body x)) → keeps f (for_each xs body).
Proof.
  intros Hb. induction xs as [|x xs IH]; simpl.
  - apply frame_ret.
  - apply frame_bind; [apply Hb | by intros _].
Qed.

Lemma frame_lift {A X} (f : State → X) (r : exn + A) : keeps f (lift r).
Proof. destruct r; [apply frame_raise | apply frame_ret]. Qed.

Lemma frame_if {A X} (f : State → X) (b : bool) (m1 m2 : M A) :
  keeps f m1 → keeps f m2 → keeps f (if b then m1 else m2).
Proof. by destruct b. Qed.

Lemma frame_write_rows {X} (f : State → X) lines acc :
  keeps f (write_rows acc lines).
Proof. intros s. by rewrite write_rows_run. Qed.

Create HintDb frame.

#[local] Hint Resolve frame_ret frame_raise frame_get frame_lift
  frame_write_rows : frame.
#[local] Hint Extern 2 (keeps _ (bind _ _)) =>
  apply frame_bind; [|intros ?] : frame.
#[local] Hint Extern 2 (keeps _ (try_except _ _)) =>
  apply frame_try; [|intros ?] : frame.
#[local] Hint Extern 2 (keeps _ (for_each _ _)) =>
  apply frame_for_each; intros ? : frame.
#[local] Hint Extern 2 (keeps _ (if _ then _ else _)) =>
  apply frame_if : frame.
#[local] Hint Extern 3 (keeps _ (match ?x with _ => _ end)) =>
  destruct x : frame.
#[local] Hint Extern 1 (keeps _ (modify _)) =>
  apply frame_modify; intros ?; simpl; try reflexivity : frame.
#[local] Hint Extern 1 (keeps _ (set_world _)) =>
  unfold set_world : frame.
#[local] Hint Extern 1 (keeps _ (set_self _)) =>
  unfold set_self : frame.
#[local] Hint Extern 1 (keeps _ (print_error _)) =>
  unfold print_error : frame.
#[local] Hint Extern 1 (keeps _ (ftp_do _)) =>
  unfold ftp_do : frame.
#[local] Hint Extern 1 (keeps _ (open_w _)) =>
  unfold open_w : frame.
#[local] Hint Extern 1 (keeps _ (file_write _ _)) =>
  unfold file_write : frame.
#[local] Hint Extern 1 (keeps _ (write_csv_file _ _)) =>
  unfold write_csv_file : frame.
#[local] Hint Extern 1 (keeps _ (csv_buffer _)) =>
  unfold csv_buffer, encode_utf8 : frame.

Section more_sinks.
Context `{Host}.

#[local] Hint Extern 1 (keeps _ get_exported_data) =>
  unfold get_exported_data : frame.
#[local] Hint Extern 1 (keeps _ (py_int ?v)) =>
  destruct v; simpl : frame.
#[local] Hint Extern 1 (keeps _ export_csv_local) =>
  unfold export_csv_local, export_csv_local_try : frame.
#[local] Hint Extern 1 (keeps _ export_csv_ftp) =>
  unfold export_csv_ftp, export_csv_ftp_try : frame.
#[local] Hint Extern 1 (keeps _ export_csv) =>
  unfold export_csv : frame.

(** The sinks start and stop no timer. *)
Lemma export_csv_keeps_timers : keeps (λ s, timers (world s)) export_csv.
Proof. auto 30 with frame. Qed.

Lemma export_csv_keeps_self : keeps self export_csv.
Proof. auto 30 with frame. Qed.

(** X1: with an empty or unset local path, [export_csv_local] returns at
    once: no file is made, the wallet is not read, nothing is logged. *)
Theorem export_csv_local_noop (s : State) :
  truthy (autoexport_local_path (self s)) = false →
  export_csv_local s = (inr tt, s).
Proof.
  intros Hp. unfold export_csv_local, try_except, export_csv_local_try.
  rewrite bind_get, Hp. reflexivity.
Qed.

(** X2: with a local path set but no wallet (the wallet was closed while a
    timer is still running), [export_csv_local] fails before it opens
    anything: it returns normally, the only change is one message in the
    log; no file is created or truncated. *)
Theorem export_csv_local_without_wallet (s : State) (d : str) :
  autoexport_local_path (self s) = PStr d → d ≠ [] →
  wallet (self s) = None →
  export_csv_local s
  = (inr tt, logged (lit "'NoneType' object has no attribute 'get_history'") s).
Proof.
  intros Hd Hne Hw. unfold export_csv_local, try_except, export_csv_local_try.
  rewrite bind_get, Hd. destruct d as [|c d]; [done|]. simpl.
  rewrite bind_ret. unfold get_exported_data at 1.
  unfold bind at 1. rewrite bind_get, Hw. reflexivity.
Qed.

Lemma export_csv_local_keeps_ftp_sent :
  keeps (λ s, ftp_sent (world s)) export_csv_local.
Proof. auto 30 with frame. Qed.

Lemma export_csv_local_keeps_timers :
  keeps (λ s, timers (world s)) export_csv_local.
Proof. auto 30 with frame. Qed.

Lemma write_keeps_other_files p path :
  path ≠ p →
  keeps (λ s, files (world s) !! p)
        (lines <- get_exported_data ;; write_csv_file path lines).
Proof.
  intros Hne.
  unfold get_exported_data, write_csv_file, open_w, file_write.
  repeat first
    [ apply frame_bind; [|intros ?]
    | apply frame_for_each; intros ?
    | apply frame_get | apply frame_ret | apply frame_raise
    | apply frame_lift
    | match goal with
      | |- keeps _ (if ?b then _ else _) => destruct b
      | |- keeps _ (match ?x with _ => _ end) => destruct x
      end
    | unfold set_world; apply frame_modify; intros ?; simpl;
      first [reflexivity | by rewrite lookup_insert_ne] ].
Qed.

(** X3: [export_csv_local] writes to one file only, the one named after the
    clock in the configured directory: every other file is as it was,
    whether the export succeeds or fails; nothing goes to the FTP server,
    and neither the timers nor the plugin object change. *)
Theorem export_csv_local_touches_one_file (s : State) (p : str) :
  (∀ d, autoexport_local_path (self s) = PStr d →
        p ≠ os_path_join d (timestamp_filename s)) →
  files (world (export_csv_local s).2) !! p = files (world s) !! p
  ∧ ftp_sent (world (export_csv_local s).2) = ftp_sent (world s)
  ∧ timers (world (export_csv_local s).2) = timers (world s)
  ∧ self (export_csv_local s).2 = self s.
Proof.
  intros Hp. split; [|split; [|split]].
  - unfold export_csv_local, try_except.
    assert (files (world (export_csv_local_try s).2) !! p
            = files (world s) !! p) as Htry.
    { unfold export_csv_local_try. rewrite bind_get.
      destruct (autoexport_local_path (self s)) as [|b|n|d] eqn:Hd; simpl;
        try done.
      - by destruct b.
      - by destruct (negb (n =? 0)%Z).
      - destruct d as [|c d]; [done|]. simpl. rewrite bind_ret.
        apply (write_keeps_other_files p). intros Heq. by apply (Hp (c :: d)). }
    destruct (export_csv_local_try s) as [[e|[]] s']; simpl in *; done.
  - apply export_csv_local_keeps_ftp_sent.
  - apply export_csv_local_keeps_timers.
  - apply keeps_export_csv_local.
Qed.

Lemma writerow_header : writerow header = inr header_line.
Proof. reflexivity. Qed.

Lemma csv_text_exported_table w t :
  csv_text (exported_table w) = inr t →
  ∃ body, csv_text (map (exported_row w) (get_history w)) = inr body
          ∧ t = header_line ++ body.
Proof.
  unfold exported_table. cbn [csv_text]. rewrite writerow_header.
  destruct (csv_text (map _ _)) as [e|body]; [done|].
  intros [= <-]. by exists body.
Qed.

(** X4: every file that [export_csv_local] writes begins with the header
    line, in the encoding and with the line ending of the platform,
    whatever the history of the wallet. *)
Theorem export_csv_local_header_first (s : State) (d : str) (w : Wallet)
    (t : str) (bs : bytes) :
  let path := os_path_join d (timestamp_filename s) in
  let pf := platform (world s) in
  autoexport_local_path (self s) = PStr d →
  d ≠ [] →
  wallet (self s) = Some w →
  path ∉ unwritable (world s) →
  csv_text (exported_table w) = inr t →
  encode (encoding pf) (translate_newlines (linesep pf) t) = Some bs →
  ∃ hb rest,
    encode (encoding pf) (translate_newlines (linesep pf) header_line)
    = Some hb
    ∧ files (world (export_csv_local s).2) !! path = Some (hb ++ rest).
Proof.
  intros path pf Hd Hne Hw Hp Ht Hb.
  destruct (csv_text_exported_table w t Ht) as (body & _ & Hbody).
  pose proof Hb as Hb'.
  rewrite Hbody, translate_newlines_app, encode_app in Hb'.
  destruct (encode _ (translate_newlines _ header_line)) as [hb|]; [|done].
  destruct (encode _ (translate_newlines _ body)) as [rest|]; [|done].
  exists hb, rest. split; [done|]. injection Hb' as <-.
  unfold export_csv_local, try_except, export_csv_local_try.
  rewrite bind_get, Hd. destruct d as [|c d]; [done|]. cbn [truthy negb].
  rewrite bind_ret.
  rewrite (bind_run _ _ _ _ _ (get_exported_data_run s w Hw)).
  erewrite write_csv_file_ok; [| done | exact Ht | exact Hb].
  cbn [snd]. unfold put_file. cbn [world files with_files].
  by rewrite lookup_insert_eq.
Qed.

(** The rows go to the file one by one: when one of them cannot be
    written, those before it are in the file already. *)
Lemma write_loop_stops path s good bad rest : ∀ acc t bs,
  csv_text good = inr t →
  encode (encoding (platform (world s)))
         (translate_newlines (linesep (platform (world s))) t) = Some bs →
  (∀ text, writerow bad = inr text →
     encode (encoding (platform (world s)))
            (translate_newlines (linesep (platform (world s))) text) = None) →
  ∃ e,
    for_each (good ++ bad :: rest) (λ line,
      text <- lift (writerow line) ;; file_write path text)
      (put_file path acc s)
    = (inl e, put_file path (acc ++ bs) s).
Proof.
  induction good as [|l good IH]; intros acc t bs Ht Hb Hbad; simpl in *.
  - simplify_eq. rewrite translate_newlines_nil in Hb. simpl in Hb.
    simplify_eq. rewrite app_nil_r.
    destruct (writerow bad) as [e|text] eqn:Hw.
    + by exists e.
    + unfold bind at 1. unfold bind at 1. simpl.
      rewrite file_write_run, (Hbad text eq_refl). by eexists.
  - destruct (writerow l) as [e|text]; [done|].
    destruct (csv_text good) as [e|texts]; [done|]. simplify_eq.
    rewrite translate_newlines_app, encode_app in Hb.
    destruct (encode _ (translate_newlines _ text)) as [b1|] eqn:H1; [|done].
    destruct (encode _ (translate_newlines _ texts)) as [b2|] eqn:H2; [|done].
    simplify_eq. unfold bind at 1. unfold bind at 1. simpl.
    rewrite file_write_run, H1.
    destruct (IH (acc ++ b1) texts b2 eq_refl H2 Hbad) as [e He].
    exists e. rewrite He. by rewrite app_assoc.
Qed.

(** X5: the local file is written row by row, with no temporary file: when
    the row of some history item cannot be encoded on the platform (a
    character outside the encoding of its text files), the export stops
    there, the error is logged, and the file is left with the header and
    the rows of the items before that one. *)
Theorem export_csv_local_partial_file (s : State) (d : str) (w : Wallet)
    (before after : list HistoryItem) (item : HistoryItem)
    (t text : str) (bs : bytes) :
  let path := os_path_join d (timestamp_filename s) in
  let pf := platform (world s) in
  autoexport_local_path (self s) = PStr d →
  d ≠ [] →
  wallet (self s) = Some w →
  get_history w = before ++ item :: after →
  path ∉ unwritable (world s) →
  csv_text (header :: map (exported_row w) before) = inr t →
  encode (encoding pf) (translate_newlines (linesep pf) t) = Some bs →
  writerow (exported_row w item) = inr text →
  encode (encoding pf) (translate_newlines (linesep pf) text) = None →
  ∃ e s',
    export_csv_local s = (inr tt, s')
    ∧ files (world s') !! path = Some bs
    ∧ errors (world s') = errors (world s) ++ [exn_str e].
Proof.
  intros path pf Hd Hne Hw Hhist Hp Ht Hb Hrow Hnone.
  assert (∀ text', writerow (exported_row w item) = inr text' →
            encode (encoding pf) (translate_newlines (linesep pf) text')
            = None) as Hbad.
  { intros text' Htext'. rewrite Hrow in Htext'. by injection Htext' as <-. }
  assert (exported_table w
          = (header :: map (exported_row w) before)
            ++ exported_row w item :: map (exported_row w) after) as Htab.
  { unfold exported_table. by rewrite Hhist, map_app. }
  unfold export_csv_local, export_csv_local_try.
  set (s1 := {| self := self s;
                world := with_history_reads (S (history_reads (world s)))
                           (world s) |}).
  destruct (write_loop_stops path s1 _ _
              (map (exported_row w) after) [] t bs Ht Hb Hbad) as [e He].
  exists e. eexists. split.
  - apply try_logged_failure. rewrite bind_get, Hd.
    destruct d as [|c d]; [done|]. cbn [truthy negb]. rewrite bind_ret.
    rewrite (bind_run _ _ _ _ _ (get_exported_data_run s w Hw)).
    unfold write_csv_file.
    rewrite (bind_run _ _ _ _ _ (open_w_run _ s1 Hp)).
    rewrite Htab. exact He.
  - unfold logged, put_file. cbn [world files errors with_files with_errors].
    split; [by rewrite lookup_insert_eq | reflexivity].
Qed.

(** *** The FTP sink *)

Lemma py_int_value v n s :
  int_value v = Some n → py_int v s = (inr n, s).
Proof.
  destruct v as [|b|m|t]; simpl; try done.
  - by intros [= <-].
  - by intros [= <-].
  - by intros ->.
Qed.

Lemma ftp_do_run c s :
  ftp_do c s =
  (match ftp_refuses (world s) c with
   | Some e => inl e
   | None => inr tt
   end,
   {| self := self s;
      world := with_ftp_sent (ftp_sent (world s) ++ [c]) (world s) |}).
Proof.
  unfold ftp_do, set_world. rewrite bind_modify, bind_get. simpl.
  by destruct (ftp_refuses (world s) c).
Qed.

Lemma ftp_configured_true p :
  ftp_configured p = true →
  truthy (autoexport_ftp_host p) = true
  ∧ truthy (autoexport_ftp_port p) = true
  ∧ truthy (autoexport_ftp_user p) = true
  ∧ truthy (autoexport_ftp_password p) = true.
Proof.
  unfold ftp_configured. rewrite !andb_true_iff. tauto.
Qed.

(** The [try] block of [export_csv_ftp] up to the buffer: the history is
    read, the port is parsed, and the commands of the preamble go out as far
    as the server accepts them. *)
Lemma export_csv_ftp_try_run s w n :
  ftp_configured (self s) = true →
  wallet (self s) = Some w →
  int_value (autoexport_ftp_port (self s)) = Some n →
  export_csv_ftp_try s =
  match first_refusal (ftp_refuses (world s)) (ftp_preamble (self s) n) with
  | Some e =>
      (inl e, after_upload s (attempted (ftp_refuses (world s))
                                (ftp_preamble (self s) n)))
  | None =>
      match csv_text (exported_table w) with
      | inl e => (inl e, after_upload s (ftp_preamble (self s) n))
      | inr t =>
          match encode UTF8 t with
          | None =>
              (inl (UnicodeEncodeError
                      (lit "'utf-8' codec can't encode character")),
               after_upload s (ftp_preamble (self s) n))
          | Some f =>
              let rest := [FtpStor (lit "STOR " ++ timestamp_filename s) f;
                           FtpClose] in
              (match first_refusal (ftp_refuses (world s)) rest with
               | Some e => inl e
               | None => inr tt
               end,
               after_upload s (ftp_preamble (self s) n
                               ++ attempted (ftp_refuses (world s)) rest))
          end
      end
  end.
Proof.
  intros (Hh & Hp & Hu & Hw)%ftp_configured_true Hwal Hn.
  unfold export_csv_ftp_try.
  rewrite bind_get, Hh, Hp, Hu, Hw. cbn [negb orb].
  rewrite (bind_run _ _ _ _ _ (get_exported_data_run s w Hwal)).
  rewrite (bind_run _ _ _ _ _ (py_int_value _ n _ Hn)).
  generalize (exported_table w). intros lines.
  unfold ftp_preamble, after_upload.
  unfold bind at 1. rewrite ftp_do_run. simpl.
  destruct (ftp_refuses (world s) (FtpConnect _ _)) as [e|]; [done|].
  unfold bind at 1. rewrite ftp_do_run. simpl.
  destruct (ftp_refuses (world s) (FtpLogin _ _)) as [e|]; simpl.
  { by rewrite <- app_assoc. }
  destruct (truthy (autoexport_ftp_dir (self s))); simpl.
  - unfold bind at 1. rewrite ftp_do_run. simpl.
    destruct (ftp_refuses (world s) (FtpCwd _)) as [e|]; simpl.
    { by rewrite <- !app_assoc. }
    unfold bind at 1. rewrite csv_buffer_run.
    destruct (csv_text lines) as [e|t]; simpl.
    { by rewrite <- !app_assoc. }
    destruct (encode UTF8 t) as [f|]; simpl.
    2: { by rewrite <- !app_assoc. }
    unfold bind at 1. rewrite ftp_do_run. simpl.
    destruct (ftp_refuses (world s) (FtpStor _ _)) as [e|]; simpl.
    { by rewrite <- !app_assoc. }
    rewrite ftp_do_run. simpl.
    destruct (ftp_refuses (world s) FtpClose) as [e|]; simpl;
      by rewrite <- !app_assoc.
  - rewrite bind_ret.
    unfold bind at 1. rewrite csv_buffer_run.
    destruct (csv_text lines) as [e|t]; simpl.
    { by rewrite <- !app_assoc. }
    destruct (encode UTF8 t) as [f|]; simpl.
    2: { by rewrite <- !app_assoc. }
    unfold bind at 1. rewrite ftp_do_run. simpl.
    destruct (ftp_refuses (world s) (FtpStor _ _)) as [e|]; simpl.
    { by rewrite <- !app_assoc. }
    rewrite ftp_do_run. simpl.
    destruct (ftp_refuses (world s) FtpClose) as [e|]; simpl;
      by rewrite <- !app_assoc.
Qed.

Lemma attempted_app refuses a b :
  first_refusal refuses a = None →
  attempted refuses (a ++ b) = a ++ attempted refuses b
  ∧ first_refusal refuses (a ++ b) = first_refusal refuses b.
Proof.
  induction a as [|c a IH]; simpl; [done|].
  destruct (refuses c); [done|]. intros [-> ->]%IH. done.
Qed.

Lemma attempted_refused_app refuses a b e :
  first_refusal refuses a = Some e →
  attempted refuses (a ++ b) = attempted refuses a
  ∧ first_refusal refuses (a ++ b) = Some e.
Proof.
  induction a as [|c a IH]; simpl; [done|].
  destruct (refuses c); [done|]. intros [-> ->]%IH. done.
Qed.

Lemma attempted_accepted refuses cmds :
  (∀ c, c ∈ cmds → refuses c = None) →
  attempted refuses cmds = cmds ∧ first_refusal refuses cmds = None.
Proof.
  induction cmds as [|c cmds IH]; simpl; [done|]. intros Hall.
  rewrite (Hall c) by (apply elem_of_cons; by left).
  assert (∀ c', c' ∈ cmds → refuses c' = None) as Hrest.
  { intros c' Hc'. apply Hall, elem_of_cons. by right. }
  by destruct (IH Hrest) as [-> ->].
Qed.

Lemma attempted_elem refuses cmds c :
  c ∈ attempted refuses cmds → c ∈ cmds.
Proof.
  induction cmds as [|c' cmds IH]; simpl; [done|].
  destruct (refuses c').
  - intros ->%list_elem_of_singleton. apply elem_of_cons. by left.
  - intros [->|Hc]%elem_of_cons; apply elem_of_cons; [by left|].
    right. by apply IH.
Qed.

(** A command that the server would accept and that comes last, and only
    last, has not been sent when an earlier one was refused. *)
Lemma attempted_not_last refuses cmds c e :
  c ∉ cmds → refuses c = None →
  first_refusal refuses (cmds ++ [c]) = Some e →
  c ∉ attempted refuses (cmds ++ [c]).
Proof.
  intros Hnot Hc Hre.
  destruct (first_refusal refuses cmds) as [e'|] eqn:Hcmds.
  - destruct (attempted_refused_app refuses cmds [c] e' Hcmds) as [-> _].
    by intros ?%attempted_elem.
  - destruct (attempted_app refuses cmds [c] Hcmds) as [_ Heq].
    rewrite Heq in Hre. simpl in Hre. by rewrite Hc in Hre.
Qed.

(** The whole of the [try] block on a table that can be serialised. *)
Lemma export_csv_ftp_try_session s w n t f :
  ftp_configured (self s) = true →
  wallet (self s) = Some w →
  int_value (autoexport_ftp_port (self s)) = Some n →
  csv_text (exported_table w) = inr t →
  encode UTF8 t = Some f →
  export_csv_ftp_try s =
  (match first_refusal (ftp_refuses (world s))
           (ftp_session (self s) n (timestamp_filename s) f) with
   | Some e => inl e
   | None => inr tt
   end,
   after_upload s (attempted (ftp_refuses (world s))
                     (ftp_session (self s) n (timestamp_filename s) f))).
Proof.
  intros Hc Hwal Hn Ht Hf.
  rewrite (export_csv_ftp_try_run s w n Hc Hwal Hn), Ht, Hf.
  unfold ftp_session.
  destruct (first_refusal _ (ftp_preamble _ _)) as [e|] eqn:Hpre.
  - by destruct (attempted_refused_app _ _
      [FtpStor (lit "STOR " ++ timestamp_filename s) f; FtpClose] _ Hpre)
      as [-> ->].
  - by destruct (attempted_app _ _
      [FtpStor (lit "STOR " ++ timestamp_filename s) f; FtpClose] Hpre)
      as [-> ->].
Qed.


(** X7: when the server refuses a command, the upload stops there: the
    commands sent are those up to the refused one, the error is logged and
    [export_csv_ftp] returns normally.  The handler has no [finally]: unless
    the refused command is the closing itself, the connection is never
    closed. *)
Theorem export_csv_ftp_refused_never_closes (s : State) (w : Wallet) (n : Z)
    (t : str) (f : bytes) (e : exn) :
  let session := ftp_session (self s) n (timestamp_filename s) f in
  ftp_configured (self s) = true →
  wallet (self s) = Some w →
  int_value (autoexport_ftp_port (self s)) = Some n →
  csv_text (exported_table w) = inr t →
  encode UTF8 t = Some f →
  first_refusal (ftp_refuses (world s)) session = Some e →
  export_csv_ftp s
  = (inr tt,
     logged (exn_str e)
       (after_upload s (attempted (ftp_refuses (world s)) session)))
  ∧ (ftp_refuses (world s) FtpClose = None →
     FtpClose ∉ attempted (ftp_refuses (world s)) session).
Proof.
  intros session Hc Hwal Hn Ht Hf Hre. split.
  - unfold export_csv_ftp.
    apply try_logged_failure.
    rewrite (export_csv_ftp_try_session s w n t f Hc Hwal Hn Ht Hf).
    fold session. by rewrite Hre.
  - intros Hclose. unfold session, ftp_session in *.
    change [FtpStor (lit "STOR " ++ timestamp_filename s) f; FtpClose]
      with ([FtpStor (lit "STOR " ++ timestamp_filename s) f] ++ [FtpClose])
      in *.
    rewrite app_assoc in *.
    apply (attempted_not_last _ _ _ e); [|done..].
    unfold ftp_preamble.
    destruct (truthy (autoexport_ftp_dir (self s)));
      rewrite !elem_of_app, !elem_of_cons, ?elem_of_nil;
      intros Hin; decompose [or] Hin; done.
Qed.

(** X8: a port that is set but is not a number (a text typed in the
    dialog) makes [int] raise after the history has been read and before
    anything is sent: the server is not contacted, the text of that one
    error is logged, and [export_csv_ftp] returns normally. *)
Theorem export_csv_ftp_bad_port_sends_nothing (s : State) (w : Wallet) :
  ftp_configured (self s) = true →
  wallet (self s) = Some w →
  int_value (autoexport_ftp_port (self s)) = None →
  ∃ e,
    export_csv_ftp s
    = (inr tt, logged (exn_str e) (after_upload s [])).
Proof.
  intros (Hh & Hp & Hu & Hw)%ftp_configured_true Hwal Hn.
  unfold export_csv_ftp, export_csv_ftp_try.
  destruct (autoexport_ftp_port (self s)) as [|b|m|p] eqn:Hport;
    simpl in Hn, Hp; try done.
  exists (ValueError (lit "invalid literal for int() with base 10: "
                      ++ py_repr p)).
  apply try_logged_failure.
  rewrite bind_get, Hh, Hu, Hw, Hport. cbn [truthy negb orb]. rewrite Hp.
  cbn [negb orb].
  rewrite (bind_run _ _ _ _ _ (get_exported_data_run s w Hwal)).
  unfold after_upload. rewrite app_nil_r.
  cbn [py_int]. rewrite Hn. reflexivity.
Qed.

(** X9: with the FTP settings complete but no wallet, [export_csv_ftp]
    fails on reading the history, before it contacts the server: it
    returns normally and the only change is one message in the log. *)
Theorem export_csv_ftp_without_wallet (s : State) :
  ftp_configured (self s) = true →
  wallet (self s) = None →
  export_csv_ftp s
  = (inr tt, logged (lit "'NoneType' object has no attribute 'get_history'") s).
Proof.
  intros (Hh & Hp & Hu & Hw)%ftp_configured_true Hwal.
  unfold export_csv_ftp, try_except, export_csv_ftp_try.
  rewrite bind_get, Hh, Hp, Hu, Hw. simpl.
  unfold get_exported_data at 1.
  unfold bind at 1. rewrite bind_get, Hwal. reflexivity.
Qed.

(** X10: a table whose text has no UTF-8 encoding (a lone surrogate in a
    label) is found out only after the log-in: the connection is made, the
    user is logged in, the directory is changed, and then the export stops
    with an error in the log; nothing is stored and the connection is not
    closed. *)
Theorem export_csv_ftp_unserialisable (s : State) (w : Wallet) (n : Z)
    (t : str) :
  ftp_configured (self s) = true →
  wallet (self s) = Some w →
  int_value (autoexport_ftp_port (self s)) = Some n →
  csv_text (exported_table w) = inr t →
  encode UTF8 t = None →
  (∀ c, c ∈ ftp_preamble (self s) n → ftp_refuses (world s) c = None) →
  ∃ e, export_csv_ftp s
       = (inr tt, logged (exn_str e) (after_upload s (ftp_preamble (self s) n))).
Proof.
  intros Hc Hwal Hn Ht Henc Hok.
  destruct (attempted_accepted _ _ Hok) as [_ Hnone].
  pose proof (export_csv_ftp_try_run s w n Hc Hwal Hn) as Hrun.
  rewrite Hnone, Ht, Henc in Hrun. unfold export_csv_ftp.
  eexists. by apply try_logged_failure.
Qed.

Lemma export_csv_ftp_keeps_files :
  keeps (λ s, files (world s)) export_csv_ftp.
Proof. auto 30 with frame. Qed.

Lemma export_csv_ftp_keeps_timers :
  keeps (λ s, timers (world s)) export_csv_ftp.
Proof. auto 30 with frame. Qed.

(** X11: whatever the settings, the wallet and the answers of the server,
    [export_csv_ftp] touches no local file, starts and stops no timer and
    leaves the plugin object as it is. *)
Theorem export_csv_ftp_touches_no_file (s : State) :
  files (world (export_csv_ftp s).2) = files (world s)
  ∧ timers (world (export_csv_ftp s).2) = timers (world s)
  ∧ self (export_csv_ftp s).2 = self s.
Proof.
  split; [|split].
  - apply export_csv_ftp_keeps_files.
  - apply export_csv_ftp_keeps_timers.
  - apply keeps_export_csv_ftp.
Qed.

End more_sinks.

(** ** Further properties: status bar, settings, timers *)

#[local] Hint Extern 1 (keeps _ (call_repeatedly _)) =>
  unfold call_repeatedly : frame.
#[local] Hint Extern 1 (keeps _ (stopped_set _)) =>
  unfold stopped_set : frame.
#[local] Hint Extern 1 (keeps _ (setToolTip _)) =>
  unfold setToolTip : frame.
#[local] Hint Extern 1 (keeps _ (setIcon _)) =>
  unfold setIcon : frame.
#[local] Hint Extern 1 (keeps _ (set_key _ _)) =>
  unfold set_key : frame.

Section more_lifecycle.
Context `{Host}.

#[local] Hint Extern 1 (keeps _ create_status_bar) =>
  unfold create_status_bar : frame.
#[local] Hint Extern 1 (keeps _ (load_wallet _ _)) =>
  unfold load_wallet : frame.
#[local] Hint Extern 1 (keeps _ close_wallet) =>
  unfold close_wallet : frame.
#[local] Hint Extern 1 (keeps _ (update_settings _)) =>
  unfold update_settings : frame.

Lemma truthy_py_or a b : truthy (py_or a b) = truthy a || truthy b.
Proof. unfold py_or. by destruct (truthy a) eqn:Ha. Qed.

Lemma lookup_fresh_timer (ts ts' : list Timer) t :
  length ts' = length ts → (ts' ++ [t]) !! length ts = Some t.
Proof. intros <-. by rewrite lookup_app_r, Nat.sub_diag by lia. Qed.

(** *** The status bar *)

(** X12: [create_status_bar] always makes a button and never raises; the
    button shows the connected icon exactly when an interval is set and at
    least one of the two sinks is enabled; nothing else changes. *)
Theorem create_status_bar_connected_iff (s : State) :
  ∃ b,
    create_status_bar s
    = (inr tt, {| self := with_status_button (Some b) (self s);
                  world := world s |})
    ∧ (icon b = status_connected ↔
       truthy (autoexport_interval_seconds (self s)) = true
       ∧ (truthy (autoexport_need_export_to_local (self s)) = true
          ∨ truthy (autoexport_need_export_to_ftp (self s)) = true)).
Proof.
  unfold create_status_bar. rewrite bind_get.
  unfold auto_export_enabled. rewrite truthy_py_or.
  destruct (truthy (autoexport_interval_seconds (self s)));
    destruct (truthy (autoexport_need_export_to_local (self s)));
    destruct (truthy (autoexport_need_export_to_ftp (self s)));
    cbn [andb orb]; (eexists; split; [reflexivity|]); cbn [icon];
    (split;
     [intros Hic;
      first [done | split; [done|first [by left | by right]]]
     |intros [? [?|?]]; done]).
Qed.

(** What [update_settings] reads: the attributes afterwards are the values
    of the configuration, which it leaves as it is, on every path. *)
Lemma update_settings_configured initial s :
  settings (self (update_settings initial s).2)
  = config_settings (config (self s))
  ∧ config (self (update_settings initial s).2) = config (self s).
Proof.
  unfold update_settings, stopped_set, call_repeatedly, setToolTip, setIcon.
  run_m.
  destruct (timer (self s)) as [h|]; run_m;
    (destruct initial; run_m; [by split|]);
    (destruct (wallet (self s)); run_m; [|by split]);
    (destruct (truthy (config_get (config (self s))
                "autoexport_interval_seconds" (PInt 0))) eqn:Hi;
     run_m; [|by split]);
    unfold bind, get, modify, ret, raise; simpl;
    (destruct (truthy (auto_export_enabled _)); simpl);
    (destruct (status_button (self s)); simpl); by split.
Qed.

(** The button that [create_status_bar] makes for a plugin. *)
Lemma create_status_bar_run s :
  create_status_bar s
  = (inr tt, {| self := with_status_button (Some (status_of (self s))) (self s);
                world := world s |}).
Proof.
  unfold create_status_bar, status_of. rewrite bind_get.
  by destruct (truthy (autoexport_interval_seconds (self s))
               && truthy (auto_export_enabled (self s))).
Qed.

(** [update_settings] when it goes all the way: a wallet is loaded, the
    interval of the configuration is set, the status bar exists. *)
Lemma update_settings_active s w b :
  wallet (self s) = Some w →
  truthy (config_get (config (self s)) "autoexport_interval_seconds" (PInt 0))
    = true →
  status_button (self s) = Some b →
  ∃ s', update_settings false s = (inr tt, s')
        ∧ status_button (self s') = Some (status_of (self s'))
        ∧ timer (self s') = Some (length (timers (world s)))
        ∧ timers (world s') !! length (timers (world s))
          = Some {| t_interval := config_get (config (self s))
                                    "autoexport_interval_seconds" (PInt 0);
                    t_stopped := false |}.
Proof.
  intros Hw Hi Hb.
  unfold update_settings, stopped_set, call_repeatedly, setToolTip, setIcon,
    status_of, auto_export_enabled.
  run_m.
  destruct (timer (self s)) as [h|]; run_m; rewrite Hw, Hi; run_m;
    unfold bind, get, modify, ret, raise; simpl;
    (destruct (truthy (py_or _ _)) eqn:He; simpl);
    rewrite Hb; simpl;
    (eexists; split; [reflexivity|]); simpl; rewrite ?Hi, ?He; simpl;
    (split; [reflexivity|]); (split; [by rewrite ?length_alter|]);
    apply lookup_fresh_timer; by rewrite ?length_alter.
Qed.

(** X13: when [update_settings] gets as far as the status (a wallet is
    loaded, an interval is configured, the status bar exists), it returns
    normally and the button shows what [create_status_bar] would show for
    the new settings; the timer it holds is a fresh one, running with the
    interval of the configuration. *)
Theorem update_settings_status_as_created (s : State) (w : Wallet)
    (b : StatusBarButton) :
  wallet (self s) = Some w →
  truthy (config_get (config (self s)) "autoexport_interval_seconds" (PInt 0))
    = true →
  status_button (self s) = Some b →
  ∃ s', update_settings false s = (inr tt, s')
        ∧ status_button (self s') = status_button (self (create_status_bar s').2)
        ∧ timer (self s') = Some (length (timers (world s)))
        ∧ timers (world s') !! length (timers (world s))
          = Some {| t_interval := config_get (config (self s))
                                    "autoexport_interval_seconds" (PInt 0);
                    t_stopped := false |}.
Proof.
  intros Hw Hi Hb.
  destruct (update_settings_active s w b Hw Hi Hb) as (s' & Hrun & Hst & Ht).
  exists s'. split; [done|]. split; [|done].
  by rewrite create_status_bar_run.
Qed.

(** X14: when the status bar has not been made (the hook
    [create_status_bar] has not run), [update_settings] raises
    [AttributeError] at the status update, after it has started the new
    timer: the exception leaves a timer running and held. *)
Theorem update_settings_without_status_bar (s : State) (w : Wallet) :
  wallet (self s) = Some w →
  truthy (config_get (config (self s)) "autoexport_interval_seconds" (PInt 0))
    = true →
  status_button (self s) = None →
  ∃ s', update_settings false s = (inl no_status_button, s')
        ∧ timer (self s') = Some (length (timers (world s)))
        ∧ timers (world s') !! length (timers (world s))
          = Some {| t_interval := config_get (config (self s))
                                    "autoexport_interval_seconds" (PInt 0);
                    t_stopped := false |}.
Proof.
  intros Hw Hi Hb.
  unfold update_settings, stopped_set, call_repeatedly, setToolTip, setIcon.
  run_m.
  destruct (timer (self s)) as [h|]; run_m; rewrite Hw, Hi; run_m;
    unfold bind, get, modify, ret, raise; simpl;
    (destruct (truthy (auto_export_enabled _)) eqn:He; simpl);
    rewrite Hb; simpl;
    (eexists; split; [reflexivity|]); simpl;
    (split; [by rewrite ?length_alter|]);
    apply lookup_fresh_timer; by rewrite ?length_alter.
Qed.

(** *** The settings dialog *)

Lemma settings_dialog_accept_run form s :
  settings_dialog_accept form s
  = update_settings false
      {| self := with_config (form_config form (config (self s))) (self s);
         world := world s |}.
Proof. reflexivity. Qed.

Lemma config_settings_form form c :
  config_settings (form_config form c)
  = [PInt (default 0%Z (int_of_str (export_interval_seconds form)));
     PBool (export_need_export_to_local form);
     PBool (export_need_export_to_ftp form);
     PStr (export_local_path form); PStr (export_ftp_host form);
     PStr (export_ftp_port form); PStr (export_ftp_user form);
     PStr (export_ftp_password form); PStr (export_ftp_dir form)].
Proof.
  unfold config_settings, form_config, config_get.
  repeat f_equal; by simplify_map_eq.
Qed.

(** The attributes once a form is accepted, whether the status update at
    the end of [update_settings] goes well or not. *)
Lemma settings_dialog_accept_settings form s :
  settings (self (settings_dialog_accept form s).2)
  = [PInt (default 0%Z (int_of_str (export_interval_seconds form)));
     PBool (export_need_export_to_local form);
     PBool (export_need_export_to_ftp form);
     PStr (export_local_path form); PStr (export_ftp_host form);
     PStr (export_ftp_port form); PStr (export_ftp_user form);
     PStr (export_ftp_password form); PStr (export_ftp_dir form)].
Proof.
  rewrite settings_dialog_accept_run.
  destruct (update_settings_configured false
    {| self := with_config (form_config form (config (self s))) (self s);
       world := world s |}) as [-> _].
  apply config_settings_form.
Qed.

(** X15: the dialog shows again what was accepted in it.  When a form is
    accepted, the next dialog opens with the same check boxes and texts;
    the two numbers come back parsed and printed: an interval that is not a
    number as 0, a port that is not a number as 21. *)
Theorem dialog_shows_what_was_accepted (s : State)
    (user : SettingsForm → option SettingsForm) (form : SettingsForm) :
  user (dialog_defaults (self s)) = Some form →
  dialog_defaults (self (settings_dialog user s).2) = shown_again form.
Proof.
  intros Hu. unfold settings_dialog. rewrite bind_get, Hu.
  pose proof (settings_dialog_accept_settings form s) as Hs.
  unfold settings in Hs. unfold dialog_defaults, shown_again, int_text.
  injection Hs as -> -> -> -> -> -> -> -> ->. reflexivity.
Qed.

(** X16: a port field left empty is stored as the empty text, not as the
    default 21 of [update_settings]: from then on [export_csv_ftp] returns
    at once and sends nothing, while the dialog, opened again, shows 21. *)
Theorem empty_port_disables_ftp (s : State) (form : SettingsForm) :
  int_of_str [] = None →
  export_ftp_port form = [] →
  let s' := (settings_dialog_accept form s).2 in
  export_csv_ftp s' = (inr tt, s')
  ∧ export_ftp_port (dialog_defaults (self s')) = lit "21".
Proof.
  intros Hint Hport s'.
  pose proof (settings_dialog_accept_settings form s) as Hs.
  fold s' in Hs. unfold settings in Hs.
  injection Hs as _ _ _ _ _ Hp _ _ _. rewrite Hport in Hp. split.
  - unfold export_csv_ftp, try_except, export_csv_ftp_try.
    rewrite bind_get, Hp. cbn [truthy negb]. by rewrite orb_true_r.
  - unfold dialog_defaults, int_text. cbn [export_ftp_port].
    rewrite Hp. cbn [int_value]. by rewrite Hint.
Qed.

(** *** Timers *)

(** X17: [load_wallet] with a wallet and an interval starts a timer with
    that interval and holds it, whether a sink is enabled or not; with no
    sink enabled every expiry of that timer does nothing. *)
Theorem load_wallet_starts_timer (s : State) (w : Wallet) (win : nat) :
  truthy (autoexport_interval_seconds (self s)) = true →
  let h := length (timers (world s)) in
  let s' :=
    {| self := with_timer (Some h)
                 (with_wallet (Some w) (with_window (Some win) (self s)));
       world := with_timers
                  (timers (world s)
                   ++ [{| t_interval := autoexport_interval_seconds (self s);
                          t_stopped := false |}]) (world s) |} in
  load_wallet (Some w) win s = (inr tt, s')
  ∧ (truthy (autoexport_need_export_to_local (self s)) = false →
     truthy (autoexport_need_export_to_ftp (self s)) = false →
     timer_fires h s' = (inr tt, s')).
Proof.
  intros Hi h s'. split.
  - unfold load_wallet, call_repeatedly. run_m. rewrite Hi. simpl.
    reflexivity.
  - intros Hl Hf. unfold timer_fires. rewrite bind_get.
    unfold s'. cbn [world timers with_timers].
    rewrite (lookup_fresh_timer (timers (world s)) _ _ eq_refl).
    cbn [t_stopped]. unfold export_csv.
    rewrite bind_get. simpl.
    rewrite Hl, bind_ret, bind_get. simpl. by rewrite Hf.
Qed.

Lemma timer_fires_keeps h s :
  self (timer_fires h s).2 = self s
  ∧ timers (world (timer_fires h s).2) = timers (world s).
Proof.
  unfold timer_fires. rewrite bind_get.
  destruct (timers (world s) !! h) as [t|]; [destruct (t_stopped t)|];
    try done.
  split; [apply export_csv_keeps_self | apply (export_csv_keeps_timers s)].
Qed.

Lemma no_live_all_stopped (l : list Timer) :
  filter (λ t, t_stopped t = false) l = [] →
  ∀ i t, l !! i = Some t → t_stopped t = true.
Proof.
  induction l as [|u l IH]; intros Hf i t Hi; [done|].
  rewrite filter_cons in Hf. case_decide as Hu; [done|].
  destruct i as [|i]; simpl in Hi.
  - injection Hi as <-. by destruct (t_stopped u).
  - by apply (IH Hf i).
Qed.

(** X18: when the only timer that may be running is the one the plugin
    holds, [close_wallet] ends the exports: afterwards the expiry of any
    timer does nothing. *)
Theorem close_wallet_stops_export (s : State) (h : nat) :
  only_held_live s →
  timer_fires h (close_wallet s).2 = (inr tt, (close_wallet s).2).
Proof.
  intros Hs. destruct (close_wallet_keeps s Hs) as [Hlive _].
  unfold timer_fires. rewrite bind_get.
  destruct (timers (world (close_wallet s).2) !! h) as [t|] eqn:Ht; [|done].
  by rewrite (no_live_all_stopped _ Hlive h t Ht).
Qed.

(** A callback that never raises is invoked once per interval until the
    event is set; then the loop returns. *)
Lemma loop_returns {St} (func : St → (exn + unit) * St) (P : St → Prop)
    (rest : list bool) :
  (∀ s, P s → (func s).1 = inr tt ∧ P (func s).2) →
  ∀ k s calls, P s →
    ∃ s', loop func (replicate k false ++ true :: rest) s calls
          = (Returned, s', calls + k) ∧ P s'.
Proof.
  intros Hf. induction k as [|k IH]; intros s calls Hs; simpl.
  - exists s. by rewrite Nat.add_0_r.
  - destruct (Hf s Hs) as [Hr Hs']. destruct (func s) as [[e|[]] s1];
      simpl in *; [done|].
    destruct (IH s1 (S calls) Hs') as (s' & -> & HP). exists s'.
    by rewrite Nat.add_succ_r.
Qed.

(** X19: the thread of a timer of the plugin ends when its event is set,
    and not before: if the event is found set at the wait after [k]
    intervals, [export_csv] has run exactly [k] times and the loop returns;
    the exports have changed neither the plugin object nor the timers. *)
Theorem timer_thread_returns_when_stopped (k : nat) (rest : list bool)
    (s : State) :
  ∃ s', loop export_csv (replicate k false ++ true :: rest) s 0
        = (Returned, s', k)
        ∧ self s' = self s
        ∧ timers (world s') = timers (world s).
Proof.
  destruct (loop_returns export_csv
              (λ x, self x = self s ∧ timers (world x) = timers (world s))
              rest) with (k := k) (s := s) (calls := 0)
    as (s' & Hrun & Hself & Htimers); [|done|by exists s'].
  intros x [Hx1 Hx2]. split; [apply export_csv_returns|]. split.
  - by rewrite export_csv_keeps_self.
  - by rewrite (export_csv_keeps_timers x).
Qed.

(** X20: the constructor reads the settings and does nothing else: it
    never raises, starts no timer and touches nothing outside the plugin,
    whatever the configuration holds. *)
Theorem init_starts_nothing (c : gmap string pyval) (w : World) :
  ∃ p,
    init {| self := new_plugin c; world := w |}
    = (inr tt, {| self := p; world := w |})
    ∧ settings p = config_settings c
    ∧ timer p = None ∧ wallet p = None ∧ status_button p = None.
Proof. eexists. split; [reflexivity|]. by repeat split. Qed.

(** *** What every handler does to the timers *)

Lemma handle_timers ev s :
  ∃ mid,
    (mid = timers (world s) ∨ ∃ h, mid = alter stop h (timers (world s)))
    ∧ ((timers (world (step s ev)) = mid
        ∧ (timer (self (step s ev)) = timer (self s)
           ∨ timer (self (step s ev)) = None))
       ∨ (∃ t, t_stopped t = false
               ∧ timers (world (step s ev)) = mid ++ [t]
               ∧ timer (self (step s ev)) = Some (length mid))).
Proof.
  destruct ev as [|w win| |form|h]; unfold step, handle.
  - exists (timers (world s)). split; [by left|]. left.
    rewrite create_status_bar_run. simpl. split; [done|by left].
  - exists (timers (world s)). split; [by left|].
    unfold load_wallet, call_repeatedly. run_m.
    destruct (bool_decide (is_Some w)); simpl;
      [|left; split; [done|by left]].
    destruct (truthy (autoexport_interval_seconds (self s))); simpl;
      [|left; split; [done|by left]].
    right. by eexists {| t_interval := _; t_stopped := false |}.
  - unfold close_wallet. run_m.
    destruct (timer (self s)) as [h|] eqn:Hh; simpl.
    + exists (alter stop h (timers (world s))). split; [right; by exists h|].
      left. split; [done|by left].
    + exists (timers (world s)). split; [by left|]. left.
      split; [done|by left].
  - rewrite settings_dialog_accept_run.
    pose proof (update_settings_timers false
      {| self := with_config (form_config form (config (self s))) (self s);
         world := world s |}) as Hu.
    cbn [self world timer with_config] in Hu.
    destruct (timer (self s)) as [h|].
    + exists (alter stop h (timers (world s))). split; [right; by exists h|].
      destruct Hu as [[Ht Hn]|(t & Hl & Ht & Hn)].
      * left. split; [done|by right].
      * right. by exists t.
    + exists (timers (world s)). split; [by left|].
      destruct Hu as [[Ht Hn]|(t & Hl & Ht & Hn)].
      * left. split; [done|by right].
      * right. by exists t.
  - exists (timers (world s)). split; [by left|]. left.
    destruct (timer_fires_keeps h s) as [-> ->]. split; [done|by left].
Qed.

Lemma mid_go_on (ts mid : list Timer) :
  (mid = ts ∨ ∃ h, mid = alter stop h ts) →
  length mid = length ts
  ∧ ∀ i t, ts !! i = Some t →
      ∃ t', mid !! i = Some t'
            ∧ t_interval t' = t_interval t
            ∧ (t_stopped t = true → t_stopped t' = true).
Proof.
  intros [->|[h ->]].
  - split; [done|]. intros i t Hi. by exists t.
  - split; [by rewrite length_alter|]. intros i t Hi.
    destruct (decide (h = i)) as [->|Hne].
    + exists (stop t). by rewrite list_lookup_alter_eq, Hi.
    + exists t. by rewrite list_lookup_alter_ne.
Qed.

Lemma step_timers_go_on s ev : timers_go_on s (step s ev).
Proof.
  destruct (handle_timers ev s) as (mid & Hmid & Hs').
  destruct (mid_go_on _ _ Hmid) as [Hlen Hgo]. intros i t Hi.
  destruct (Hgo i t Hi) as (t' & Ht' & Hrest). exists t'. split; [|done].
  destruct Hs' as [[-> _]|(u & _ & -> & _)]; [done|].
  by rewrite lookup_app_l by (by apply lookup_lt_Some in Ht').
Qed.

(** X21: over any sequence of events, a timer once started stays in place
    with the interval it was started with, and a timer once stopped stays
    stopped: no handler restarts or retimes a thread; a change of interval
    takes effect only through a new timer. *)
Theorem run_timers_go_on (evs : list event) (s : State) :
  timers_go_on s (run s evs).
Proof.
  revert s. induction evs as [|ev evs IH]; intros s i t Hi.
  - by exists t.
  - destruct (step_timers_go_on s ev i t Hi) as (t1 & H1 & Hint1 & Hst1).
    destruct (IH (step s ev) i t1 H1) as (t2 & H2 & Hint2 & Hst2).
    exists t2. split; [exact H2|]. split; [congruence|]. auto.
Qed.

Lemma step_handle_valid s ev : handle_valid s → handle_valid (step s ev).
Proof.
  intros Hs. destruct (handle_timers ev s) as (mid & Hmid & Hs').
  destruct (mid_go_on _ _ Hmid) as [Hlen _]. intros h Hh.
  destruct Hs' as [[-> [Heq|Heq]]|(u & _ & -> & Heq)].
  - rewrite Hlen. apply Hs. by rewrite <- Heq.
  - by rewrite Heq in Hh.
  - rewrite Heq in Hh. injection Hh as <-. rewrite length_app. simpl. lia.
Qed.

Lemma run_invariant (P : State → Prop) :
  (∀ s ev, P s → P (step s ev)) →
  ∀ evs s, P s → P (run s evs).
Proof.
  intros Hstep. induction evs as [|ev evs IH]; intros s Hs; [done|].
  simpl. apply IH, Hstep, Hs.
Qed.

Lemma init_timer_none c w h :
  timer (self (initial_state c w)) = Some h → False.
Proof. done. Qed.

(** X22: in every state that the plugin can reach, the handle it holds,
    if any, is the handle of a timer that exists. *)
Theorem reachable_handle_valid (s : State) :
  reachable s → handle_valid s.
Proof.
  intros (c & w & evs & ->). apply run_invariant; [apply step_handle_valid|].
  intros h Hh. by destruct (init_timer_none c w h).
Qed.

Lemma load_wallet_keeps_settings w win :
  keeps (λ s, (settings (self s), config (self s))) (load_wallet w win).
Proof. auto 30 with frame. Qed.

Lemma close_wallet_keeps_settings :
  keeps (λ s, (settings (self s), config (self s))) close_wallet.
Proof. auto 30 with frame. Qed.

Lemma keeps_configured {A} (m : M A) s :
  keeps (λ s, (settings (self s), config (self s))) m →
  configured s → configured (m s).2.
Proof.
  intros Hk Hs. specialize (Hk s). cbn beta in Hk.
  pose proof (f_equal fst Hk) as H1. pose proof (f_equal snd Hk) as H2.
  cbn [fst snd] in H1, H2. unfold configured. by rewrite H1, H2.
Qed.

Lemma step_configured s ev : configured s → configured (step s ev).
Proof.
  intros Hs.
  destruct ev as [|w win| |form|h]; unfold step, handle.
  - by rewrite create_status_bar_run.
  - by apply keeps_configured; [apply load_wallet_keeps_settings|].
  - by apply keeps_configured; [apply close_wallet_keeps_settings|].
  - rewrite settings_dialog_accept_run. unfold configured.
    by destruct (update_settings_configured false
      {| self := with_config (form_config form (config (self s))) (self s);
         world := world s |}) as [-> ->].
  - unfold configured. by destruct (timer_fires_keeps h s) as [-> _].
Qed.

(** X23: in every state that the plugin can reach, the nine attributes are
    the values of the configuration, with the defaults of
    [update_settings] for the keys that are absent: the only code that
    writes the configuration reads it back before it returns. *)
Theorem reachable_configured (s : State) :
  reachable s → configured s.
Proof.
  intros (c & w & evs & ->). apply run_invariant; [apply step_configured|].
  reflexivity.
Qed.

Lemma only_held_live_same s s' :
  timers (world s') = timers (world s) →
  timer (self s') = timer (self s) →
  only_held_live s → only_held_live s'.
Proof. unfold only_held_live. intros -> ->. done. Qed.

Lemma step_only_held_live s ev :
  only_held_live s →
  (∀ w win, ev = LoadWallet w win → live_timers (world s) = []) →
  only_held_live (step s ev).
Proof.
  intros Hs Hload.
  destruct ev as [|w win| |form|h].
  - apply (only_held_live_same s); [..|done];
      unfold step, handle; by rewrite create_status_bar_run.
  - pose proof (no_live_all_stopped _ (Hload w win eq_refl)) as Hall.
    destruct (handle_timers (LoadWallet w win) s) as (mid & Hmid & Hstep).
    destruct (mid_go_on _ _ Hmid) as [Hlen Hgo].
    assert (∀ i t, mid !! i = Some t → t_stopped t = true) as Hmidall.
    { intros i t Hi.
      destruct (timers (world s) !! i) as [u|] eqn:Hu.
      - destruct (Hgo i u Hu) as (t' & Ht' & _ & Hst).
        rewrite Hi in Ht'. injection Ht' as <-. apply Hst, (Hall i u Hu).
      - apply lookup_lt_Some in Hi. apply lookup_ge_None in Hu. lia. }
    intros i t Hi Ht.
    destruct Hstep as [[Heq _]|(u & _ & Heq & Hh)]; rewrite Heq in Hi.
    + rewrite (Hmidall i t Hi) in Ht. done.
    + rewrite Hh. destruct (decide (i < length mid)) as [Hlt|Hge].
      * rewrite lookup_app_l in Hi by done.
        rewrite (Hmidall i t Hi) in Ht. done.
      * rewrite lookup_app_r in Hi by lia.
        apply list_lookup_singleton_Some in Hi as [Hi _]. f_equal. lia.
  - by apply close_wallet_keeps.
  - unfold step, handle. rewrite settings_dialog_accept_run.
    by apply update_settings_keeps.
  - destruct (timer_fires_keeps h s) as [Hself Htimers].
    apply (only_held_live_same s); [done| |done].
    unfold step, handle. by rewrite Hself.
Qed.

(** X24: the invariant that only the held timer may be running is kept by
    every event, a wallet load included when no timer is running at that
    moment; so at most one timer runs afterwards.  The one way out of the
    invariant is a wallet load while a timer runs. *)
Theorem step_keeps_one_live_timer (s : State) (ev : event) :
  only_held_live s →
  (∀ w win, ev = LoadWallet w win → live_timers (world s) = []) →
  only_held_live (step s ev)
  ∧ length (live_timers (world (step s ev))) ≤ 1.
Proof.
  intros Hs Hload. pose proof (step_only_held_live s ev Hs Hload).
  split; [done|by apply only_held_live_at_most_one].
Qed.

(** X25: switching wallets the regular way, a close and then a load, leaks
    no timer: if only the held timer could be running before, then after
    the two hooks at most one timer runs, and it is the one held. *)
Theorem reload_after_close_one_live_timer (s : State) (w : option Wallet)
    (win : nat) :
  only_held_live s →
  let s' := run s [CloseWallet; LoadWallet w win] in
  only_held_live s' ∧ length (live_timers (world s')) ≤ 1.
Proof.
  intros Hs s'. destruct (close_wallet_keeps s Hs) as [Hlive Hclosed].
  assert (only_held_live s') as Hs'.
  { apply (step_only_held_live (step s CloseWallet) (LoadWallet w win));
      [exact Hclosed|]. intros _ _ _. exact Hlive. }
  split; [done|by apply only_held_live_at_most_one].
Qed.

(** *** The formatter *)

(** X26: the table that [get_exported_data] builds by appending in its
    loop follows the history: the header first, then the row of the k-th
    item at position k + 1, and nothing after the last item; the call
    reads the history once and changes nothing else. *)
Theorem get_exported_data_rows_follow_history (s : State) (w : Wallet) :
  wallet (self s) = Some w →
  ∃ lines,
    get_exported_data s
    = (inr lines,
       {| self := self s;
          world := with_history_reads (S (history_reads (world s)))
                     (world s) |})
    ∧ lines !! 0 = Some header
    ∧ ∀ k, lines !! S k = exported_row w <$> get_history w !! k.
Proof.
  intros Hw. exists (exported_table w).
  split; [by apply get_exported_data_run|]. split; [done|].
  intros k. unfold exported_table. cbn [lookup list_lookup].
  apply list_lookup_fmap.
Qed.

End more_lifecycle.

(** ** The theorems at sample inputs *)

Lemma loop_ends_at_exception_witness :
  loop (λ n : nat, (inl (OSError (lit "disk full")), S n)) [false; false] 7 0
  = (Died (OSError (lit "disk full")), 8, 1).
Proof.
  apply (loop_ends_at_exception
           (λ n : nat, (inl (OSError (lit "disk full")), S n)) [false] 7 8).
  reflexivity.
Defined.

Lemma get_exported_data_total_witness :
  ∃ lines s',
    get_exported_data (Sample.active (Sample.empty_world Sample.posix))
    = (inr lines, s')
    ∧ length lines = 3
    ∧ Forall (λ row, length row = 5 ∧ Forall resolved row
                     ∧ Forall (λ v, v ≠ PNone) row) lines.
Proof.
  apply (get_exported_data_total
           (Sample.active (Sample.empty_world Sample.posix)) Sample.a_wallet).
  reflexivity.
Defined.

Lemma no_timer_when_interval_unset_witness :
  ∃ s1 s2,
    update_settings false Sample.config_cleared = (inr tt, s1)
    ∧ load_wallet (Some Sample.a_wallet) 0 s1 = (inr tt, s2)
    ∧ timer (self s1) = None
    ∧ length (timers (world s1)) = 1
    ∧ timer (self s2) = None
    ∧ world s2 = world s1
    ∧ length (live_timers (world s2)) ≤ 1.
Proof.
  apply (no_timer_when_interval_unset Sample.config_cleared false
           (Some Sample.a_wallet) 0).
  left. reflexivity.
Defined.

Lemma export_csv_ftp_noop_witness :
  export_csv_ftp Sample.no_host = (inr tt, Sample.no_host)
  ∧ ftp_sent (world (export_csv_ftp Sample.no_host).2) = []
  ∧ history_reads (world (export_csv_ftp Sample.no_host).2) = 0
  ∧ errors (world (export_csv_ftp Sample.no_host).2) = [].
Proof.
  apply (export_csv_ftp_noop Sample.no_host). left. reflexivity.
Defined.

Lemma export_csv_attempts_both_sinks_witness :
  ∃ s1,
    export_csv_local (Sample.active Sample.locked_world) = (inr tt, s1)
    ∧ export_csv (Sample.active Sample.locked_world) = export_csv_ftp s1
    ∧ (∀ e s', export_csv_local_try (Sample.active Sample.locked_world)
               = (inl e, s') → s1 = logged (exn_str e) s').
Proof.
  apply (export_csv_attempts_both_sinks (Sample.active Sample.locked_world));
    reflexivity.
Defined.

Lemma ftp_buffer_is_local_file_witness :
  (csv_buffer (exported_table Sample.a_wallet)
     (Sample.active (Sample.empty_world Sample.posix))).1
  = inr (default [] (encode UTF8
           (match csv_text (exported_table Sample.a_wallet) with
            | inr t => t | inl _ => [] end)))
  ↔ (write_csv_file Sample.csv_path (exported_table Sample.a_wallet)
       (Sample.active (Sample.empty_world Sample.posix))).1 = inr tt
    ∧ files (world (write_csv_file Sample.csv_path
                      (exported_table Sample.a_wallet)
                      (Sample.active (Sample.empty_world Sample.posix))).2)
      !! Sample.csv_path
      = Some (default [] (encode UTF8
           (match csv_text (exported_table Sample.a_wallet) with
            | inr t => t | inl _ => [] end))).
Proof.
  apply (ftp_buffer_is_local_file
           (Sample.active (Sample.empty_world Sample.posix)) Sample.csv_path).
  - reflexivity.
  - reflexivity.
  - apply not_elem_of_empty.
Defined.

Lemma export_csv_local_overwrites_witness :
  let s := Sample.active (Sample.stale_world Sample.posix) in
  let path := os_path_join (lit "/tmp/out") (timestamp_filename s) in
  let bs := default [] (encode UTF8
              (match csv_text (exported_table Sample.a_wallet) with
               | inr t => t | inl _ => [] end)) in
  files (world s) !! path = Some (lit "old export")
  ∧ bs ≠ lit "old export"
  ∧ ∃ s',
      export_csv_local s = (inr tt, s')
      ∧ files (world s') !! path = Some bs
      ∧ errors (world s') = errors (world s).
Proof.
  intros s path bs. split; [vm_compute; reflexivity|]. split.
  { intros Heq. vm_compute in Heq. discriminate Heq. }
  apply (export_csv_local_overwrites s (lit "/tmp/out") Sample.a_wallet
           (lit "old export")
           (match csv_text (exported_table Sample.a_wallet) with
            | inr t => t | inl _ => [] end) bs).
  - reflexivity.
  - discriminate.
  - reflexivity.
  - vm_compute. reflexivity.
  - apply not_elem_of_empty.
  - vm_compute. reflexivity.
  - vm_compute. reflexivity.
Defined.

Lemma local_file_reads_back_witness :
  ∃ s' content,
    write_csv_file Sample.csv_path (exported_table Sample.a_wallet)
      (Sample.active (Sample.empty_world Sample.windows)) = (inr tt, s')
    ∧ files (world s') !! Sample.csv_path = Some content
    ∧ csv_read_file Sample.windows true content
      = inr (map (map field_text) (exported_table Sample.a_wallet)).
Proof.
  apply (local_file_reads_back
           (Sample.active (Sample.empty_world Sample.windows))
           Sample.csv_path (exported_table Sample.a_wallet) true).
  - apply not_elem_of_empty.
  - compute_done.
  - left. reflexivity.
Defined.

Lemma export_csv_local_noop_witness :
  export_csv_local Sample.no_host = (inr tt, Sample.no_host).
Proof. apply (export_csv_local_noop Sample.no_host). reflexivity. Defined.

Lemma export_csv_local_without_wallet_witness :
  export_csv_local Sample.closed
  = (inr tt,
     logged (lit "'NoneType' object has no attribute 'get_history'")
       Sample.closed).
Proof.
  apply (export_csv_local_without_wallet Sample.closed (lit "/tmp/out")).
  - reflexivity.
  - discriminate.
  - reflexivity.
Defined.

Lemma export_csv_local_touches_one_file_witness :
  let s := Sample.active (Sample.empty_world Sample.posix) in
  files (world (export_csv_local s).2) !! lit "/etc/passwd"
  = files (world s) !! lit "/etc/passwd"
  ∧ ftp_sent (world (export_csv_local s).2) = ftp_sent (world s)
  ∧ timers (world (export_csv_local s).2) = timers (world s)
  ∧ self (export_csv_local s).2 = self s.
Proof.
  apply (export_csv_local_touches_one_file
           (Sample.active (Sample.empty_world Sample.posix))
           (lit "/etc/passwd")).
  intros d Hd Heq. vm_compute in Hd. injection Hd as <-.
  vm_compute in Heq. discriminate Heq.
Defined.

Lemma export_csv_local_header_first_witness :
  let s := Sample.active (Sample.empty_world Sample.posix) in
  ∃ hb rest,
    encode UTF8 (translate_newlines LF header_line) = Some hb
    ∧ files (world (export_csv_local s).2)
      !! os_path_join (lit "/tmp/out") (timestamp_filename s)
      = Some (hb ++ rest).
Proof.
  intros s.
  apply (export_csv_local_header_first s (lit "/tmp/out") Sample.a_wallet
           (match csv_text (exported_table Sample.a_wallet) with
            | inr t => t | inl _ => [] end)
           (default [] (encode UTF8
              (match csv_text (exported_table Sample.a_wallet) with
               | inr t => t | inl _ => [] end)))).
  - reflexivity.
  - discriminate.
  - reflexivity.
  - apply not_elem_of_empty.
  - vm_compute. reflexivity.
  - vm_compute. reflexivity.
Defined.

Lemma export_csv_local_partial_file_witness :
  let s := Sample.greek in
  ∃ e s',
    export_csv_local s = (inr tt, s')
    ∧ files (world s') !! os_path_join (lit "/tmp/out") (timestamp_filename s)
      = Some (default [] (encode Latin1
          (header_line ++ lit "abc123,rent,3,5000,1690000000" ++ [10%N])))
    ∧ errors (world s') = errors (world s) ++ [exn_str e].
Proof.
  intros s.
  apply (export_csv_local_partial_file s (lit "/tmp/out")
           Sample.greek_wallet
           [ {| tx_hash := lit "abc123"; height := 100; confirmations := 3;
                timestamp := Some 1690000000%Z; value := Some 5000%Z;
                balance := Some 5000%Z |} ]
           []
           {| tx_hash := lit "def456"; height := 101; confirmations := 2;
              timestamp := Some 1690000600%Z; value := Some (-700)%Z;
              balance := Some 4300%Z |}
           (header_line ++ lit "abc123,rent,3,5000,1690000000" ++ [10%N])
           (lit "def456," ++ [937%N] ++ lit ",2,-700,1690000600" ++ [10%N])
           (default [] (encode Latin1
              (header_line ++ lit "abc123,rent,3,5000,1690000000"
               ++ [10%N])))).
  - reflexivity.
  - discriminate.
  - reflexivity.
  - reflexivity.
  - apply not_elem_of_empty.
  - vm_compute. reflexivity.
  - vm_compute. reflexivity.
  - vm_compute. reflexivity.
  - vm_compute. reflexivity.
Defined.


Lemma export_csv_ftp_refused_never_closes_witness :
  let s := Sample.active Sample.strict_world in
  let f := default [] (encode UTF8
             (match csv_text (exported_table Sample.a_wallet) with
              | inr t => t | inl _ => [] end)) in
  let session := ftp_session (self s) 21 (timestamp_filename s) f in
  export_csv_ftp s
  = (inr tt,
     logged (lit "530 Login incorrect")
       (after_upload s (attempted (ftp_refuses (world s)) session)))
  ∧ (ftp_refuses (world s) FtpClose = None →
     FtpClose ∉ attempted (ftp_refuses (world s)) session)
  ∧ attempted (ftp_refuses (world s)) session
    = [FtpConnect (PStr (lit "ftp.example.org")) 21;
       FtpLogin (PStr (lit "user")) (PStr (lit "secret"))].
Proof.
  intros s f session.
  destruct (export_csv_ftp_refused_never_closes s Sample.a_wallet 21
       (match csv_text (exported_table Sample.a_wallet) with
        | inr t => t | inl _ => [] end) f
       (FtpError (lit "530 Login incorrect"))) as [Hrun Hclose].
  - reflexivity.
  - reflexivity.
  - reflexivity.
  - vm_compute. reflexivity.
  - vm_compute. reflexivity.
  - reflexivity.
  - split; [exact Hrun|]. split; [exact Hclose|reflexivity].
Defined.

Lemma export_csv_ftp_bad_port_sends_nothing_witness :
  ∃ e,
    export_csv_ftp Sample.bad_port
    = (inr tt, logged (exn_str e) (after_upload Sample.bad_port [])).
Proof.
  apply (export_csv_ftp_bad_port_sends_nothing Sample.bad_port
           Sample.a_wallet); reflexivity.
Defined.

Lemma export_csv_ftp_without_wallet_witness :
  export_csv_ftp Sample.closed
  = (inr tt,
     logged (lit "'NoneType' object has no attribute 'get_history'")
       Sample.closed).
Proof.
  apply (export_csv_ftp_without_wallet Sample.closed); reflexivity.
Defined.

Lemma export_csv_ftp_unserialisable_witness :
  ∃ e,
    export_csv_ftp Sample.surrogate
    = (inr tt,
       logged (exn_str e)
         (after_upload Sample.surrogate
            (ftp_preamble (self Sample.surrogate) 21)))
    ∧ ftp_preamble (self Sample.surrogate) 21
      = [FtpConnect (PStr (lit "ftp.example.org")) 21;
         FtpLogin (PStr (lit "user")) (PStr (lit "secret"))].
Proof.
  destruct (export_csv_ftp_unserialisable Sample.surrogate
              Sample.surrogate_wallet 21
              (match csv_text (exported_table Sample.surrogate_wallet) with
               | inr t => t | inl _ => [] end))
    as [e He].
  - reflexivity.
  - reflexivity.
  - reflexivity.
  - vm_compute. reflexivity.
  - vm_compute. reflexivity.
  - intros c _. reflexivity.
  - exists e. split; [exact He|reflexivity].
Defined.

Lemma update_settings_status_as_created_witness :
  let s := Sample.active (Sample.empty_world Sample.posix) in
  ∃ s', update_settings false s = (inr tt, s')
        ∧ status_button (self s') = status_button (self (create_status_bar s').2)
        ∧ timer (self s') = Some 1
        ∧ timers (world s') !! 1
          = Some {| t_interval := PInt 5; t_stopped := false |}.
Proof.
  apply (update_settings_status_as_created
           (Sample.active (Sample.empty_world Sample.posix)) Sample.a_wallet
           {| icon := status_connected; tooltip := lit "AutoExport: 5sec." |});
    reflexivity.
Defined.

Lemma update_settings_without_status_bar_witness :
  ∃ s', update_settings false Sample.no_status_bar
        = (inl no_status_button, s')
        ∧ timer (self s') = Some 1
        ∧ timers (world s') !! 1
          = Some {| t_interval := PInt 5; t_stopped := false |}.
Proof.
  apply (update_settings_without_status_bar Sample.no_status_bar
           Sample.a_wallet); reflexivity.
Defined.

Lemma dialog_shows_what_was_accepted_witness :
  dialog_defaults
    (self (settings_dialog (λ _, Some Sample.a_form)
             (Sample.active (Sample.empty_world Sample.posix))).2)
  = shown_again Sample.a_form.
Proof.
  apply (dialog_shows_what_was_accepted
           (Sample.active (Sample.empty_world Sample.posix))
           (λ _, Some Sample.a_form) Sample.a_form).
  reflexivity.
Defined.

Lemma empty_port_disables_ftp_witness :
  let s' := (settings_dialog_accept Sample.a_form
               (Sample.active (Sample.empty_world Sample.posix))).2 in
  export_csv_ftp s' = (inr tt, s')
  ∧ export_ftp_port (dialog_defaults (self s')) = lit "21".
Proof.
  apply (empty_port_disables_ftp
           (Sample.active (Sample.empty_world Sample.posix)) Sample.a_form);
    reflexivity.
Defined.

Lemma load_wallet_starts_timer_witness :
  let s := initial_state Sample.a_config (Sample.empty_world Sample.posix) in
  let s' :=
    {| self := with_timer (Some 0)
                 (with_wallet (Some Sample.a_wallet)
                    (with_window (Some 7) (self s)));
       world := with_timers [{| t_interval := PInt 5; t_stopped := false |}]
                  (world s) |} in
  load_wallet (Some Sample.a_wallet) 7 s = (inr tt, s')
  ∧ (truthy (autoexport_need_export_to_local (self s)) = false →
     truthy (autoexport_need_export_to_ftp (self s)) = false →
     timer_fires 0 s' = (inr tt, s')).
Proof.
  apply (load_wallet_starts_timer
           (initial_state Sample.a_config (Sample.empty_world Sample.posix))
           Sample.a_wallet 7).
  reflexivity.
Defined.

Lemma close_wallet_stops_export_witness :
  timer_fires 0 (close_wallet
                   (Sample.active (Sample.empty_world Sample.posix))).2
  = (inr tt, (close_wallet
                (Sample.active (Sample.empty_world Sample.posix))).2).
Proof.
  apply (close_wallet_stops_export
           (Sample.active (Sample.empty_world Sample.posix)) 0).
  intros [|i] t Hi Ht; [reflexivity|]. vm_compute in Hi. discriminate Hi.
Defined.

Lemma reachable_handle_valid_witness :
  handle_valid (Sample.active (Sample.empty_world Sample.posix)).
Proof.
  apply (reachable_handle_valid
           (Sample.active (Sample.empty_world Sample.posix))).
  exists Sample.a_config, (Sample.empty_world Sample.posix),
    [CreateStatusBar; LoadWallet (Some Sample.a_wallet) 0].
  reflexivity.
Defined.

Lemma reachable_configured_witness :
  configured Sample.bad_port.
Proof.
  apply (reachable_configured Sample.bad_port).
  exists (<["autoexport_ftp_port" := PStr (lit "ftp")]> Sample.a_config),
    (Sample.empty_world Sample.posix),
    [CreateStatusBar; LoadWallet (Some Sample.a_wallet) 0].
  reflexivity.
Defined.

Lemma step_keeps_one_live_timer_witness :
  let s := Sample.active (Sample.empty_world Sample.posix) in
  only_held_live (step s (SettingsAccepted Sample.a_form))
  ∧ length (live_timers (world (step s (SettingsAccepted Sample.a_form)))) ≤ 1.
Proof.
  apply (step_keeps_one_live_timer
           (Sample.active (Sample.empty_world Sample.posix))
           (SettingsAccepted Sample.a_form)).
  - intros [|i] t Hi Ht; [reflexivity|]. vm_compute in Hi. discriminate Hi.
  - intros w win Hev. discriminate Hev.
Defined.

Lemma reload_after_close_one_live_timer_witness :
  let s' := run (Sample.active (Sample.empty_world Sample.posix))
                [CloseWallet; LoadWallet (Some Sample.greek_wallet) 1] in
  only_held_live s' ∧ length (live_timers (world s')) ≤ 1.
Proof.
  apply (reload_after_close_one_live_timer
           (Sample.active (Sample.empty_world Sample.posix))
           (Some Sample.greek_wallet) 1).
  intros [|i] t Hi Ht; [reflexivity|]. vm_compute in Hi. discriminate Hi.
Defined.

Lemma get_exported_data_rows_follow_history_witness :
  let s := Sample.active (Sample.empty_world Sample.posix) in
  ∃ lines,
    get_exported_data s
    = (inr lines,
       {| self := self s;
          world := with_history_reads (S (history_reads (world s)))
                     (world s) |})
    ∧ lines !! 0 = Some header
    ∧ ∀ k, lines !! S k
           = exported_row Sample.a_wallet <$> get_history Sample.a_wallet !! k.
Proof.
  apply (get_exported_data_rows_follow_history
           (Sample.active (Sample.empty_world Sample.posix)) Sample.a_wallet).
  reflexivity.
Defined.
